(** * Pincode resolution cache and per-pincode aggregation

    A shallow embedding of the two scripts that carry the core logic of the
    repository:

    - [app.py]: loading and cleaning the address table, the left join with
      the coordinate cache, the per-pincode aggregation (count, median
      coordinate, most common city and state, share of total), the final
      ordering, and the colour thresholds of markers and clusters;
    - [fetch_coordinates.py]: the geocoding adapter
      [get_coordinates_for_pincode] and the cache reconciler [main].

    Modelling conventions.
    - A pandas DataFrame is the list of its rows, a row is a record.
    - A missing cell (NaN, NaT, None) is [None].
    - A pincode that survived cleaning is an integer ([Z]).
    - Decimal degrees and percentages are exact rationals ([Q]): the
      arithmetic of the scripts is modelled without rounding.
    - Console output and calls to the geocoding provider are recorded as a
      trace of events. *)

From Stdlib Require Import QArith Qfield.
From stdpp Require Import base tactics option list sorting gmap strings.

Local Open Scope Z_scope.

(* ================================================================== *)
(** ** Exceptions *)

Inductive exn := IndexError | KeyError.

Inductive result (A : Type) :=
  | Ok (a : A)
  | Raise (e : exn).
Arguments Ok {A} a.
Arguments Raise {A} e.

Global Instance result_ret : MRet result := λ A a, Ok a.

Global Instance result_bind : MBind result := λ A B f m,
  match m with
  | Ok a => f a
  | Raise e => Raise e
  end.

Fixpoint rmapM {A B} (f : A → result B) (l : list A) : result (list B) :=
  match l with
  | [] => Ok []
  | a :: l' => b ← f a ; bs ← rmapM f l' ; Ok (b :: bs)
  end.

(* ================================================================== *)
(** ** Tables *)

(** One row of [Address Details.csv].  [CPA_PIN_CODE] holds the value of
    the column after [pd.to_numeric(..., errors='coerce')] and [Year] the
    value of [RegistrationDate.dt.year] after [pd.to_datetime(...,
    errors='coerce')]: what does not parse is [None].  The pincode is a
    whole number here; a cell with a fraction, which [pd.to_numeric]
    keeps, joins no cache row in [app.py], and the reconciler over such
    cells is [Cells.main]. *)
Record AddressRow := {
  CPA_PIN_CODE : option Z;
  CPA_ADDR_CITY : option string;
  Year : option Z
}.

(** One row of [pincode_coordinates_google.csv]. *)
Record CacheRow := {
  pincode : Z;
  latitude : option Q;
  longitude : option Q;
  city : option string;
  state : option string;
  formatted_address : option string
}.

(** One row of [merged_df] (the columns the aggregation reads). *)
Record MergedRow := {
  m_PIN_CODE : Z;
  m_ADDR_CITY : option string;
  m_Year : option Z;
  m_city : option string;
  Latitude : option Q;
  Longitude : option Q;
  StateName : option string
}.

(** One row of [pincode_locations]. *)
Record LocationRow := {
  l_PIN_CODE : Z;
  l_Latitude : option Q;
  l_Longitude : option Q;
  l_ADDR_CITY : option string;
  l_StateName : option string
}.

(** One row of [pincode_summary]. *)
Record SummaryRow := {
  s_PIN_CODE : Z;
  customer_count : nat;
  s_Latitude : option Q;
  s_Longitude : option Q;
  s_ADDR_CITY : option string;
  s_StateName : option string;
  percentage : Q
}.

(* ================================================================== *)
(** ** pandas primitives used by the scripts *)

(** [Series.unique()]: distinct values in order of first appearance. *)
Fixpoint unique `{EqDecision A} (l : list A) : list A :=
  match l with
  | [] => []
  | a :: l' => a :: filter (λ b, b ≠ a) (unique l')
  end.

(** [Series.fillna(other)], cell by cell. *)
Definition fillna {A} (x other : option A) : option A :=
  match x with
  | Some _ => x
  | None => other
  end.

(** Values of a column with the missing cells skipped. *)
Definition dropna_values {A} (x : list (option A)) : list A := omap id x.

Global Instance Qle_dec : RelDecision Qle.
Proof.
  intros x y. destruct (Qlt_le_dec y x) as [H | H].
  - right. intros H'. exact (Qlt_not_le _ _ H H').
  - left. exact H.
Defined.

(** [Series.median()]: missing cells skipped; the middle value of the
    sorted values, or the average of the two middle ones. *)
Definition median (x : list (option Q)) : option Q :=
  let v := merge_sort Qle (dropna_values x) in
  let n := length v in
  if Nat.eqb n 0 then None
  else if Nat.odd n then v !! (n / 2)%nat
  else
    match v !! (n / 2 - 1)%nat, v !! (n / 2)%nat with
    | Some a, Some b => Some ((a + b) / 2)%Q
    | _, _ => None
    end.

Definition occurrences `{EqDecision A} (a : A) (l : list A) : nat :=
  length (filter (λ b, b = a) l).

Definition string_le (a b : string) : Prop := String.leb a b = true.

Global Instance string_le_dec : RelDecision string_le.
Proof. intros a b. unfold string_le. apply _. Defined.

(** [Series.mode()] (dropna=True): the most frequent non-missing values,
    sorted. *)
Definition mode (x : list (option string)) : list string :=
  let v := dropna_values x in
  let top := max_list (map (λ s, occurrences s v) v) in
  merge_sort string_le (filter (λ s, occurrences s v = top) (unique v)).

(* ================================================================== *)
(** ** app.py: load_data *)

(** [address_df.merge(pincode_coords[...], left_on='CPA_PIN_CODE',
    right_on='pincode', how='left')] for one address row: one output row
    per matching cache row, in cache order; a single row with missing cache
    columns when nothing matches. *)
Definition merge_left_row (pincode_coords : list CacheRow)
    (pin : Z) (a : AddressRow) : list MergedRow :=
  match filter (λ c, pincode c = pin) pincode_coords with
  | [] =>
      [ {| m_PIN_CODE := pin; m_ADDR_CITY := CPA_ADDR_CITY a;
           m_Year := Year a; m_city := None;
           Latitude := None; Longitude := None; StateName := None |} ]
  | cs =>
      map (λ c, {| m_PIN_CODE := pin; m_ADDR_CITY := CPA_ADDR_CITY a;
                   m_Year := Year a; m_city := city c;
                   Latitude := latitude c; Longitude := longitude c;
                   StateName := state c |}) cs
  end.

(** Rows whose pincode is missing are dropped before the merge. *)
Definition merge_left (pincode_coords : list CacheRow)
    (address_df : list AddressRow) : list MergedRow :=
  flat_map (λ a, match CPA_PIN_CODE a with
                 | Some pin => merge_left_row pincode_coords pin a
                 | None => []
                 end) address_df.

(** [merged_df['CPA_ADDR_CITY'] = merged_df['city'].fillna(merged_df['CPA_ADDR_CITY'])] *)
Definition fill_city (r : MergedRow) : MergedRow :=
  {| m_PIN_CODE := m_PIN_CODE r;
     m_ADDR_CITY := fillna (m_city r) (m_ADDR_CITY r);
     m_Year := m_Year r; m_city := m_city r;
     Latitude := Latitude r; Longitude := Longitude r;
     StateName := StateName r |}.

Definition has_coordinates (r : MergedRow) : bool :=
  bool_decide (is_Some (Latitude r)) && bool_decide (is_Some (Longitude r)).

Definition load_data (address_df : list AddressRow)
    (pincode_coords : list CacheRow) : list MergedRow :=
  filter (λ r, has_coordinates r = true)
    (map fill_city (merge_left pincode_coords address_df)).

(* ================================================================== *)
(** ** app.py: filter, group and aggregate *)

(** [selected_year]: [None] is the option 'All Years'. *)
Definition filtered_df (df : list MergedRow) (selected_year : option Z)
    : list MergedRow :=
  match selected_year with
  | Some y => filter (λ r, m_Year r = Some y) df
  | None => df
  end.

(** [groupby('CPA_PIN_CODE')]: the keys in ascending order, and the rows of
    one group in table order. *)
Definition group_keys (df : list MergedRow) : list Z :=
  merge_sort Z.le (unique (map m_PIN_CODE df)).

Definition group (df : list MergedRow) (k : Z) : list MergedRow :=
  filter (λ r, m_PIN_CODE r = k) df.

Definition pincode_counts (df : list MergedRow) : list (Z * nat) :=
  map (λ k, (k, length (group df k))) (group_keys df).

(** [lambda x: x.mode()[0] if len(x.mode()) > 0 else x.iloc[0]] *)
Definition most_common (x : list (option string)) : result (option string) :=
  match mode x with
  | s :: _ => Ok (Some s)
  | [] =>
      match x with
      | v :: _ => Ok v
      | [] => Raise IndexError
      end
  end.

Definition agg_group (df : list MergedRow) (k : Z) : result LocationRow :=
  let g := group df k in
  c ← most_common (map m_ADDR_CITY g) ;
  s ← most_common (map StateName g) ;
  Ok {| l_PIN_CODE := k;
        l_Latitude := median (map Latitude g);
        l_Longitude := median (map Longitude g);
        l_ADDR_CITY := c;
        l_StateName := s |}.

Definition pincode_locations (df : list MergedRow) : result (list LocationRow) :=
  rmapM (agg_group df) (group_keys df).

(** [pincode_counts.merge(pincode_locations, on='CPA_PIN_CODE')] followed by
    the percentage column. *)
Definition count_to_Q (n : nat) : Q := inject_Z (Z.of_nat n).

Definition summary_row (total_customers : nat) (kc : Z * nat)
    (l : LocationRow) : SummaryRow :=
  {| s_PIN_CODE := kc.1;
     customer_count := kc.2;
     s_Latitude := l_Latitude l;
     s_Longitude := l_Longitude l;
     s_ADDR_CITY := l_ADDR_CITY l;
     s_StateName := l_StateName l;
     percentage := (count_to_Q kc.2 / count_to_Q total_customers * 100)%Q |}.

Definition merge_inner (total_customers : nat) (counts : list (Z * nat))
    (locations : list LocationRow) : list SummaryRow :=
  flat_map (λ kc, map (summary_row total_customers kc)
                     (filter (λ l, l_PIN_CODE l = kc.1) locations)) counts.

(** The summary before the final ordering (lines 89 to 104). *)
Definition pincode_summary_unsorted (df : list MergedRow)
    : result (list SummaryRow) :=
  locations ← pincode_locations df ;
  Ok (merge_inner (length df) (pincode_counts df) locations).

(** The order of the key column after a descending sort. *)
Definition count_desc (a b : SummaryRow) : Prop :=
  (customer_count b ≤ customer_count a)%nat.

(** [DataFrame.sort_values('customer_count', ascending=False)].  The script
    passes neither a secondary key nor a [kind], so it gets the library's
    default algorithm, which is documented as not stable.  What the library
    promises is this interface: the result is a rearrangement of the rows
    and the key column is descending. *)
Class SortValues := {
  sort_values : list SummaryRow → list SummaryRow;
  sort_values_Permutation : ∀ l, sort_values l ≡ₚ l;
  sort_values_Sorted : ∀ l, Sorted count_desc (sort_values l)
}.

(** A sort is stable when rows with equal keys keep their relative order. *)
Definition stable (S : SortValues) : Prop :=
  ∀ l n, filter (λ s, customer_count s = n) (sort_values l)
         = filter (λ s, customer_count s = n) l.

Definition pincode_summary `{SortValues} (df : list MergedRow)
    : result (list SummaryRow) :=
  rows ← pincode_summary_unsorted df ;
  Ok (sort_values rows).

(** The whole pipeline for one dashboard query. *)
Definition dashboard `{SortValues} (address_df : list AddressRow)
    (pincode_coords : list CacheRow) (selected_year : option Z)
    : result (list SummaryRow) :=
  pincode_summary (filtered_df (load_data address_df pincode_coords) selected_year).

(** Two implementations of the interface, both by insertion into a
    descending list, the rows taken from the last to the first.
    [insert_before] puts a row in front of the rows with an equal key, so
    equal keys keep their original order (stable); [insert_after] puts it
    behind them, so equal keys come out reversed (not stable).  Neither is
    the library's algorithm, which is no part of this repository and
    differs with the library version and the processor: they show what the
    interface allows, the first to have an instance to run the pipeline
    with, the second to show that the interface leaves the order of equal
    keys open. *)
Fixpoint insert_after (a : SummaryRow) (l : list SummaryRow) : list SummaryRow :=
  match l with
  | [] => [a]
  | b :: l' =>
      if decide (customer_count a ≤ customer_count b)%nat
      then b :: insert_after a l' else a :: l
  end.

Fixpoint insert_before (a : SummaryRow) (l : list SummaryRow) : list SummaryRow :=
  match l with
  | [] => [a]
  | b :: l' =>
      if decide (customer_count a < customer_count b)%nat
      then b :: insert_before a l' else a :: l
  end.

Definition stable_sort_desc (l : list SummaryRow) : list SummaryRow :=
  foldr insert_before [] l.

Definition unstable_sort_desc (l : list SummaryRow) : list SummaryRow :=
  foldr insert_after [] l.

(* ================================================================== *)
(** ** app.py: colour and size thresholds *)

(** Individual markers (the loop over [pincode_summary.iterrows()]). *)
Definition marker_color (is_percentage_mode : bool) (row : SummaryRow) : string :=
  if is_percentage_mode then
    if decide (10 <= percentage row)%Q then "red"
    else if decide (5 <= percentage row)%Q then "orange"
    else if decide (1 <= percentage row)%Q then "lightgreen"
    else "lightblue"
  else
    if decide (1000 < customer_count row)%nat then "red"
    else if decide (500 < customer_count row)%nat then "orange"
    else if decide (100 < customer_count row)%nat then "lightgreen"
    else "lightblue".

(** The options attached to a marker. *)
Record MarkerOptions := {
  customCount : nat;
  customPercentage : Q
}.

Definition marker_options (row : SummaryRow) : MarkerOptions :=
  {| customCount := customer_count row; customPercentage := percentage row |}.

(** Clusters ([icon_create_function], JavaScript).  A falsy option (zero)
    is skipped by the [if]. *)
Definition cluster_sumCount (markers : list MarkerOptions) : nat :=
  foldl (λ sum m, if decide (customCount m = 0%nat) then sum
                  else (sum + customCount m)%nat) 0%nat markers.

Definition cluster_sumPct (markers : list MarkerOptions) : Q :=
  foldl (λ sum m, if Qeq_bool (customPercentage m) 0 then sum
                  else (sum + customPercentage m)%Q) 0%Q markers.

Definition cluster_color (is_percentage_mode : bool)
    (markers : list MarkerOptions) : string :=
  if is_percentage_mode then
    let sumPct := cluster_sumPct markers in
    if decide (10 <= sumPct)%Q then "red"
    else if decide (5 <= sumPct)%Q then "orange"
    else if decide (1 <= sumPct)%Q then "lightgreen"
    else "lightblue"
  else
    let sum := cluster_sumCount markers in
    if decide (1000 < sum)%nat then "red"
    else if decide (500 < sum)%nat then "orange"
    else if decide (100 ≤ sum)%nat then "lightgreen"
    else "lightblue".

Definition cluster_size (is_percentage_mode : bool)
    (markers : list MarkerOptions) : string :=
  if is_percentage_mode then
    let sumPct := cluster_sumPct markers in
    if decide (10 <= sumPct)%Q then "large"
    else if decide (5 <= sumPct)%Q then "medium"
    else "small"
  else
    let sum := cluster_sumCount markers in
    if decide (5000 ≤ sum)%nat then "large"
    else if decide (1000 ≤ sum)%nat then "medium"
    else "small".

(** The legend of the sidebar for the count mode, which the script heads
    "Individual Pincodes & Clusters": red above 1,000, orange 500 to 1,000,
    green 100 to 499, blue below 100. *)
Definition legend_count_color (n : nat) : string :=
  if decide (1000 < n)%nat then "red"
  else if decide (500 ≤ n)%nat then "orange"
  else if decide (100 ≤ n)%nat then "lightgreen"
  else "lightblue".

(* ================================================================== *)
(** ** fetch_coordinates.py: the geocoding adapter *)

(** One entry of [address_components]. *)
Record Component := {
  types : list string;
  long_name : string
}.

(** One candidate of the provider's answer.  [location] is
    [geometry.location] as a pair (lat, lng); a candidate without it makes
    the subscript raise. *)
Record Candidate := {
  location : option (Q * Q);
  address_components : list Component;
  c_formatted_address : string
}.

(** What [gmaps.geocode] does: it returns the ordered candidates or raises. *)
Inductive GeoResponse :=
  | GeoResult (candidates : list Candidate)
  | GeoRaise.

(** Console lines and provider calls, in the order they happen. *)
Inductive Event :=
  | EGeocode (p : Z)                 (* gmaps.geocode("Pincode p, India") *)
  | ENoResults (p : Z)               (* "No results for pincode p" *)
  | EErrorFetching (p : Z)           (* "Error fetching pincode p: ..." *)
  | ECacheExists                     (* "Cache file ... already exists!" *)
  | EUsingExisting (found : nat)     (* "Using existing cache file", "Found n cached pincodes" *)
  | EFoundCached (found : nat)       (* "Found n cached pincodes, will fetch new ones only" *)
  | EWillRefetch                     (* "Will refetch all pincodes" *)
  | EFoundUnique (n : nat)           (* "Found n unique pincodes in Address Details.csv" *)
  | ENeedToFetch (n : nat)           (* "Need to fetch n pincodes from Google Maps API" *)
  | EAllCached                       (* "All pincodes already cached!" *)
  | EWillMake (n : nat)              (* "This will make n API calls" *)
  | ECancelled                       (* "Cancelled" *)
  | EFetching (i n : nat) (p : Z)    (* "[i/n] Fetching pincode p..." *)
  | EFetched (lat lng : option Q)    (* the coordinates after the check mark *)
  | ESleep                           (* time.sleep(1) *)
  | ESaved (new total : nat)         (* "Saved n new coordinates", "Total pincodes in cache" *)
  | ESummaryProcessed (n : nat)      (* "Total pincodes processed: n" *)
  | ESummarySuccessful (n : nat).    (* "Successful: n" *)

(** The loop over [address_components]: a later match overwrites an
    earlier one, and a component typed as locality is never read as a
    state. *)
Definition scan_component (acc : option string * option string)
    (component : Component) : option string * option string :=
  if decide ("locality" ∈ types component) then (Some (long_name component), acc.2)
  else if decide ("administrative_area_level_1" ∈ types component)
       then (acc.1, Some (long_name component))
  else acc.

Definition scan_components (cs : list Component) : option string * option string :=
  foldl scan_component (None, None) cs.

Definition get_coordinates_for_pincode (gmaps : Z → GeoResponse) (p : Z)
    : option CacheRow * list Event :=
  match gmaps p with
  | GeoResult (first :: _) =>
      match location first with
      | Some (lat, lng) =>
          let cs := scan_components (address_components first) in
          (Some {| pincode := p;
                   latitude := Some lat;
                   longitude := Some lng;
                   city := cs.1;
                   state := cs.2;
                   formatted_address := Some (c_formatted_address first) |},
           [EGeocode p])
      | None => (None, [EGeocode p; EErrorFetching p])
      end
  | GeoResult [] => (None, [EGeocode p; ENoResults p])
  | GeoRaise => (None, [EGeocode p; EErrorFetching p])
  end.

(* ================================================================== *)
(** ** fetch_coordinates.py: the reconciler *)

(** [for i, pincode in enumerate(pincodes_to_fetch, 1)], started at [i];
    [n] is [len(pincodes_to_fetch)]. *)
Fixpoint fetch_loop (gmaps : Z → GeoResponse) (n i : nat) (todo : list Z)
    : list CacheRow * list Event :=
  match todo with
  | [] => ([], [])
  | p :: todo' =>
      let '(r, ev) := get_coordinates_for_pincode gmaps p in
      let '(rs, evs) := fetch_loop gmaps n (S i) todo' in
      (match r with Some x => x :: rs | None => rs end,
       EFetching i n p :: ev
         ++ match r with
            | Some x => [EFetched (latitude x) (longitude x)]
            | None => []
            end
         ++ (if decide (i mod 10 = 0)%nat then [ESleep] else [])
         ++ evs)
  end.

(** [sorted(address_df['CPA_PIN_CODE'].unique())] after the rows with a
    missing pincode are dropped, over whole pincodes, for which
    [int(pincode)] is the identity ([Cells.unique_pincodes] is the list
    over fractional cells). *)
Definition unique_pincodes (address_csv : list AddressRow) : list Z :=
  merge_sort Z.le (unique (omap CPA_PIN_CODE address_csv)).

(** The part of [main] after the mode is chosen (from "Load address data"
    on).  [cache_file] is the content of the cache file, if the file
    exists; the result is its content afterwards. *)
Definition reconcile (cache_file : option (list CacheRow))
    (cached_pincodes : gset Z) (address_csv : list AddressRow)
    (confirm : string) (gmaps : Z → GeoResponse)
    : option (list CacheRow) * list Event :=
  let unique_pincodes := unique_pincodes address_csv in
  let pincodes_to_fetch := filter (λ p, p ∉ cached_pincodes) unique_pincodes in
  let head := [EFoundUnique (length unique_pincodes);
               ENeedToFetch (length pincodes_to_fetch)] in
  if decide (length pincodes_to_fetch = 0%nat) then
    (cache_file, head ++ [EAllCached])
  else if decide (confirm = "y") then
    let '(results, ev) :=
      fetch_loop gmaps (length pincodes_to_fetch) 1 pincodes_to_fetch in
    let combined_df :=
      if decide (cached_pincodes ≠ ∅)
      then default [] cache_file ++ results
      else results in
    (Some combined_df,
     head ++ [EWillMake (length pincodes_to_fetch)] ++ ev
       ++ [ESaved (length results) (length combined_df);
           ESummaryProcessed (length results);
           ESummarySuccessful (length results)])
  else
    (cache_file, head ++ [EWillMake (length pincodes_to_fetch); ECancelled]).

(** [response] and [confirm] are the two console answers after
    [strip().upper()] and [strip().lower()]. *)
Definition main (cache_file : option (list CacheRow))
    (address_csv : list AddressRow) (response confirm : string)
    (gmaps : Z → GeoResponse) : option (list CacheRow) * list Event :=
  match cache_file with
  | Some cached_df =>
      if decide (response = "U") then
        (cache_file, [ECacheExists; EUsingExisting (length cached_df)])
      else if decide (response = "A") then
        let cached_pincodes : gset Z := list_to_set (map pincode cached_df) in
        let '(file, ev) :=
          reconcile cache_file cached_pincodes address_csv confirm gmaps in
        (file, ECacheExists :: EFoundCached (size cached_pincodes) :: ev)
      else
        let '(file, ev) := reconcile cache_file ∅ address_csv confirm gmaps in
        (file, ECacheExists :: EWillRefetch :: ev)
  | None => reconcile cache_file ∅ address_csv confirm gmaps
  end.

(* ================================================================== *)
(** ** Notions used to state the properties *)

(** Sum of a column of rationals. *)
Definition Qsum (l : list Q) : Q := foldr Qplus 0%Q l.

(** Arithmetic mean of a non-empty column. *)
Definition mean (v : list Q) : Q := (Qsum v / count_to_Q (length v))%Q.

(** The median as the specification words it: in the values arranged in
    ascending order, the middle one when their number is odd, the average
    of the two middle ones when it is even. *)
Definition is_median (v : list Q) (m : Q) : Prop :=
  ∃ sorted, sorted ≡ₚ v ∧ Sorted Qle sorted ∧
    if Nat.odd (length v)
    then sorted !! (length v / 2)%nat = Some m
    else ∃ a b, sorted !! (length v / 2 - 1)%nat = Some a
              ∧ sorted !! (length v / 2)%nat = Some b
              ∧ m = ((a + b) / 2)%Q.

(** A pincode resolves in the cache when some cache row carries it with
    both coordinates. *)
Definition resolves (pincode_coords : list CacheRow) (p : Z) : Prop :=
  Exists (λ c, pincode c = p ∧ is_Some (latitude c) ∧ is_Some (longitude c))
    pincode_coords.

Global Instance resolves_dec pincode_coords p : Decision (resolves pincode_coords p).
Proof. unfold resolves. apply _. Defined.

(** Membership of a cleaned address record in the selected view. *)
Definition in_view (selected_year : option Z) (a : AddressRow) : Prop :=
  match selected_year with
  | Some y => Year a = Some y
  | None => True
  end.

Global Instance in_view_dec selected_year a : Decision (in_view selected_year a).
Proof. unfold in_view. destruct selected_year; apply _. Defined.

Definition resolved_record (pincode_coords : list CacheRow)
    (selected_year : option Z) (a : AddressRow) : Prop :=
  in_view selected_year a ∧
  match CPA_PIN_CODE a with
  | Some p => resolves pincode_coords p
  | None => False
  end.

Global Instance resolved_record_dec pincode_coords selected_year a :
  Decision (resolved_record pincode_coords selected_year a).
Proof. unfold resolved_record. destruct (CPA_PIN_CODE a); apply _. Defined.

(** The cleaned records of a view whose pincode resolves in the cache. *)
Definition resolved_records (address_df : list AddressRow)
    (pincode_coords : list CacheRow) (selected_year : option Z)
    : list AddressRow :=
  filter (resolved_record pincode_coords selected_year) address_df.

(** The value the aggregation lambda yields on a non-empty group. *)
Definition most_common_value (x : list (option string)) : option string :=
  match mode x with
  | s :: _ => Some s
  | [] => mjoin (head x)
  end.

(** The summary row of one pincode, read off the filtered table. *)
Definition summary_of (df : list MergedRow) (k : Z) : SummaryRow :=
  let g := group df k in
  {| s_PIN_CODE := k;
     customer_count := length g;
     s_Latitude := median (map Latitude g);
     s_Longitude := median (map Longitude g);
     s_ADDR_CITY := most_common_value (map m_ADDR_CITY g);
     s_StateName := most_common_value (map StateName g);
     percentage := (count_to_Q (length g) / count_to_Q (length df) * 100)%Q |}.

(** Lexicographic order the specification asks of the output: count
    descending, then pincode ascending. *)
Definition count_desc_pin_asc (a b : SummaryRow) : Prop :=
  (customer_count b < customer_count a)%nat
  ∨ (customer_count a = customer_count b ∧ s_PIN_CODE a < s_PIN_CODE b).

(** The pincodes the provider was asked about, in order. *)
Definition geocoded (trace : list Event) : list Z :=
  omap (λ e, match e with EGeocode p => Some p | _ => None end) trace.

(** The counts printed under "Summary:". *)
Definition summary_counts (trace : list Event) : list nat :=
  omap (λ e, match e with
             | ESummaryProcessed n | ESummarySuccessful n => Some n
             | _ => None
             end) trace.

(** The pincodes for which a failure line was printed, in order. *)
Definition failures (trace : list Event) : list Z :=
  omap (λ e, match e with
             | ENoResults p | EErrorFetching p => Some p
             | _ => None
             end) trace.

(** The count printed on the line "Successful: n". *)
Definition successful_count (trace : list Event) : list nat :=
  omap (λ e, match e with ESummarySuccessful n => Some n | _ => None end) trace.

(** The count announced before the fetch ("Need to fetch n pincodes"). *)
Definition announced (trace : list Event) : list nat :=
  omap (λ e, match e with ENeedToFetch n => Some n | _ => None end) trace.

(** Every count printed on the console, line by line. *)
Definition reported_counts (trace : list Event) : list nat :=
  flat_map (λ e, match e with
                 | EUsingExisting n | EFoundCached n | EFoundUnique n
                 | ENeedToFetch n | EWillMake n
                 | ESummaryProcessed n | ESummarySuccessful n => [n]
                 | ESaved new total => [new; total]
                 | _ => []
                 end) trace.

(** The set [cached_pincodes] that [main] computes before it loads the
    address data, and the list [pincodes_to_fetch] that follows from it. *)
Definition cached_pincodes_of (cache_file : option (list CacheRow))
    (response : string) : gset Z :=
  match cache_file with
  | Some cached_df =>
      if decide (response = "A") then list_to_set (map pincode cached_df) else ∅
  | None => ∅
  end.

Definition pincodes_to_fetch (cache_file : option (list CacheRow))
    (response : string) (address_csv : list AddressRow) : list Z :=
  filter (λ p, p ∉ cached_pincodes_of cache_file response)
    (unique_pincodes address_csv).

(** The rows the adapter yields for a list of pincodes, failures left out. *)
Definition successful_rows (gmaps : Z → GeoResponse) (todo : list Z)
    : list CacheRow :=
  omap (λ p, (get_coordinates_for_pincode gmaps p).1) todo.

(** Whether the adapter resolves a pincode. *)
Definition resolved (gmaps : Z → GeoResponse) (p : Z) : Prop :=
  is_Some (get_coordinates_for_pincode gmaps p).1.

Global Instance resolved_dec gmaps p : Decision (resolved gmaps p).
Proof. unfold resolved. apply _. Defined.

(** The rows one address record contributes to the view. *)
Definition joined_rows (pincode_coords : list CacheRow)
    (selected_year : option Z) (a : AddressRow) : list MergedRow :=
  filtered_df
    (filter (λ r, has_coordinates r = true)
       (map fill_city
          (match CPA_PIN_CODE a with
           | Some pin => merge_left_row pincode_coords pin a
           | None => []
           end))) selected_year.

Definition pin_asc (a b : SummaryRow) : Prop := s_PIN_CODE a < s_PIN_CODE b.

(* ================================================================== *)
(** ** Sample data used in examples *)

Definition sample_address : list AddressRow :=
  [ {| CPA_PIN_CODE := Some 110001; CPA_ADDR_CITY := Some "Delhi";
       Year := Some 2021 |};
    {| CPA_PIN_CODE := Some 110001; CPA_ADDR_CITY := Some "Delhi";
       Year := None |};
    {| CPA_PIN_CODE := None; CPA_ADDR_CITY := Some "Mysore";
       Year := Some 2021 |};
    {| CPA_PIN_CODE := Some 560001; CPA_ADDR_CITY := Some "Bangalore";
       Year := Some 2022 |};
    {| CPA_PIN_CODE := Some 600001; CPA_ADDR_CITY := None;
       Year := Some 2022 |};
    {| CPA_PIN_CODE := Some 999999; CPA_ADDR_CITY := Some "Nowhere";
       Year := Some 2022 |} ].

Definition sample_cache : list CacheRow :=
  [ {| pincode := 110001; latitude := Some (286 # 10)%Q;
       longitude := Some (772 # 10)%Q; city := Some "New Delhi";
       state := Some "Delhi"; formatted_address := None |};
    {| pincode := 560001; latitude := Some (1297 # 100)%Q;
       longitude := Some (7759 # 100)%Q; city := Some "Bengaluru";
       state := Some "Karnataka"; formatted_address := None |};
    {| pincode := 600001; latitude := Some (1309 # 100)%Q;
       longitude := Some (8028 # 100)%Q; city := None;
       state := None; formatted_address := None |} ].

(** A cache in which pincode 560001 was resolved three times, to slightly
    different places. *)
Definition skewed_cache : list CacheRow :=
  [ {| pincode := 560001; latitude := Some 12%Q; longitude := Some 77%Q;
       city := Some "Bengaluru"; state := Some "Karnataka";
       formatted_address := None |};
    {| pincode := 560001; latitude := Some 15%Q; longitude := Some 80%Q;
       city := Some "Bengaluru"; state := Some "Karnataka";
       formatted_address := None |};
    {| pincode := 560001; latitude := Some 12%Q; longitude := Some 77%Q;
       city := Some "Bengaluru"; state := Some "Karnataka";
       formatted_address := None |} ].

(** A thousand and one pincodes, all of them in the cache: the first with
    two customers, every other one with one customer.  The table is larger
    than the inputs on which a quicksort falls back to a sort of small
    arrays (an insertion sort or a sorting network), which can leave equal
    keys in place. *)
Definition tie_pincodes : list Z := seqZ 560001 1001.

Definition tie_address : list AddressRow :=
  {| CPA_PIN_CODE := Some 560001; CPA_ADDR_CITY := Some "Bangalore";
     Year := Some 2021 |}
  :: map (λ p, {| CPA_PIN_CODE := Some p; CPA_ADDR_CITY := Some "Bangalore";
                  Year := Some 2022 |}) tie_pincodes.

Definition tie_cache : list CacheRow :=
  map (λ p, {| pincode := p; latitude := Some (1297 # 100)%Q;
               longitude := Some (7759 # 100)%Q; city := Some "Bengaluru";
               state := Some "Karnataka"; formatted_address := None |})
    tie_pincodes.

(** An address table whose only row has no parseable pincode. *)
Definition unparseable_address : list AddressRow :=
  [ {| CPA_PIN_CODE := None; CPA_ADDR_CITY := Some "Mysore";
       Year := Some 2021 |} ].

(** Three records, one pincode each: the provider resolves the first and
    the third and raises on the second. *)
Definition three_pincodes : list AddressRow :=
  [ {| CPA_PIN_CODE := Some 110001; CPA_ADDR_CITY := None; Year := None |};
    {| CPA_PIN_CODE := Some 560001; CPA_ADDR_CITY := None; Year := None |};
    {| CPA_PIN_CODE := Some 600001; CPA_ADDR_CITY := None; Year := None |} ].

(** A provider that knows two pincodes: the first with a locality and a
    state, the second with neither; it fails on a third and returns no
    candidate for anything else. *)
Definition sample_gmaps (p : Z) : GeoResponse :=
  if decide (p = 110001) then
    GeoResult
      [ {| location := Some (286 # 10, 772 # 10)%Q;
           address_components :=
             [ {| types := ["postal_code"]; long_name := "110001" |};
               {| types := ["locality"; "political"];
                  long_name := "New Delhi" |};
               {| types := ["administrative_area_level_1"; "political"];
                  long_name := "Delhi" |} ];
           c_formatted_address := "New Delhi, Delhi 110001, India" |};
        {| location := Some (0, 0)%Q;
           address_components :=
             [ {| types := ["locality"]; long_name := "Elsewhere" |} ];
           c_formatted_address := "Elsewhere" |} ]
  else if decide (p = 600001) then
    GeoResult
      [ {| location := Some (1309 # 100, 8028 # 100)%Q;
           address_components :=
             [ {| types := ["postal_code"]; long_name := "600001" |} ];
           c_formatted_address := "600001, India" |} ]
  else if decide (p = 560001) then GeoRaise
  else GeoResult [].

(** A pincode with exactly 100 customers, and the options of two markers
    with 60 and 40 customers. *)
Definition hundred_customers : SummaryRow :=
  {| s_PIN_CODE := 560001; customer_count := 100;
     s_Latitude := Some (1297 # 100)%Q; s_Longitude := Some (7759 # 100)%Q;
     s_ADDR_CITY := Some "Bengaluru"; s_StateName := Some "Karnataka";
     percentage := (1 # 2)%Q |}.

Definition sixty_and_forty : list MarkerOptions :=
  [ {| customCount := 60; customPercentage := (3 # 10)%Q |};
    {| customCount := 40; customPercentage := (2 # 10)%Q |} ].

(* ================================================================== *)
(** ** app.py: selector, statistics and table *)

(** [years = sorted(df['Year'].dropna().unique())]: the years offered by
    the selector, after the entry 'All Years'. *)
Definition years (df : list MergedRow) : list Z :=
  merge_sort Z.le (unique (omap m_Year df)).

(** [Series.max()]: missing on an empty column. *)
Definition series_max (x : list nat) : option nat :=
  match x with
  | [] => None
  | _ => Some (max_list x)
  end.

(** The metric "Max at One Pincode": [pincode_summary['customer_count'].max()]. *)
Definition max_at_one_pincode (pincode_summary : list SummaryRow) : option nat :=
  series_max (map customer_count pincode_summary).

(** [pincode_summary.head(20)], the rows of the table of top locations. *)
Definition top_locations (pincode_summary : list SummaryRow) : list SummaryRow :=
  take 20 pincode_summary.

(** The markers put on the map, one per row of the summary. *)
Definition markers (pincode_summary : list SummaryRow) : list MarkerOptions :=
  map marker_options pincode_summary.

(* ================================================================== *)
(** ** Further notions about a run of the reconciler *)

(** The number of pauses ([time.sleep(1)]) in a trace. *)
Definition sleeps (trace : list Event) : nat :=
  length (omap (λ e, match e with ESleep => Some () | _ => None end) trace).

(** Console lines that are printed outside the fetch loop and before the
    cache file is written. *)
Definition outside_fetch (e : Event) : Prop :=
  match e with
  | ECacheExists | EUsingExisting _ | EFoundCached _ | EWillRefetch
  | EFoundUnique _ | ENeedToFetch _ | EAllCached | EWillMake _
  | ECancelled => True
  | _ => False
  end.

(* ================================================================== *)
(** ** merge_addresses.py *)

(** Console lines of [merge_address_files]. *)
Inductive MergeEvent :=
  | MLoading (csv_file : string)        (* "Loading f..." *)
  | MLoaded (n : nat)                   (* "- Loaded n records" *)
  | MDropped (n : nat)                  (* "- Dropped n records with invalid pincodes" *)
  | MUnique (n : nat)                   (* "- Unique pincodes: n" *)
  | MNotFound (csv_file : string)       (* "f NOT FOUND" *)
  | MMerging (n : nat)                  (* "Merging n files..." *)
  | MCreated (total unique : nat).      (* "Total records", "Unique pincodes" *)

(** [df.dropna(subset=['CPA_PIN_CODE'])] *)
Definition dropna_pincode (df : list AddressRow) : list AddressRow :=
  filter (λ a, is_Some (CPA_PIN_CODE a)) df.

(** [df['CPA_PIN_CODE'].nunique()] *)
Definition nunique (df : list AddressRow) : nat :=
  length (unique (omap CPA_PIN_CODE df)).

(** The loop over [csv_files].  A file is given by its name and, if it
    exists, its rows (with the pincode column already through
    [pd.to_numeric]); [dataframes] is the list built so far.  A missing
    file ends the function at once ([return False]). *)
Fixpoint load_files (csv_files : list (string * option (list AddressRow)))
    (dataframes : list (list AddressRow))
    : option (list (list AddressRow)) * list MergeEvent :=
  match csv_files with
  | [] => (Some dataframes, [])
  | (csv_file, Some raw) :: rest =>
      let df := dropna_pincode raw in
      let dropped := (length raw - length df)%nat in
      let '(r, ev) := load_files rest (dataframes ++ [df]) in
      (r, MLoading csv_file :: MLoaded (length df)
            :: (if decide (0 < dropped)%nat then [MDropped dropped] else [])
            ++ MUnique (nunique df) :: ev)
  | (csv_file, None) :: _ => (None, [MNotFound csv_file])
  end.

(** The result is the returned flag, the content written to
    [Combined_Address_Details.csv] (if it is written) and the console
    lines. *)
Definition merge_address_files
    (address_details tn_address : option (list AddressRow))
    : bool * option (list AddressRow) * list MergeEvent :=
  match load_files [("Address Details.csv", address_details);
                    ("TNAddress.csv", tn_address)] [] with
  | (Some dataframes, ev) =>
      let combined_df := concat dataframes in
      (true, Some combined_df,
       ev ++ [MMerging (length dataframes);
              MCreated (length combined_df) (nunique combined_df)])
  | (None, ev) => (false, None, ev)
  end.

(** The counts of dropped rows printed during a merge. *)
Definition dropped_counts (trace : list MergeEvent) : list nat :=
  omap (λ e, match e with MDropped n => Some n | _ => None end) trace.

(* ================================================================== *)
(** ** create_heatmap.py *)

(** One row of [pincode_with_lat-long.csv] (a directory with one row per
    post office), its three columns after [pd.to_numeric(...,
    errors='coerce')]; the name columns carried along are left out. *)
Record OfficeRow := {
  Pincode : option Z;
  o_Latitude : option Q;
  o_Longitude : option Q
}.

(** One row of [merged_df] of this script. *)
Record HeatRow := {
  h_PIN_CODE : Z;
  h_ADDR_CITY : option string;
  h_Latitude : option Q;
  h_Longitude : option Q
}.

(** [pincode_df.dropna(subset=['Pincode', 'Latitude', 'Longitude'])] *)
Definition clean_pincode_df (pincode_df : list OfficeRow) : list OfficeRow :=
  filter (λ o, is_Some (Pincode o) ∧ is_Some (o_Latitude o)
               ∧ is_Some (o_Longitude o)) pincode_df.

(** The left merge on [CPA_PIN_CODE] = [Pincode], for one address row. *)
Definition heat_merge_row (pincode_df : list OfficeRow)
    (pin : Z) (a : AddressRow) : list HeatRow :=
  match filter (λ o, Pincode o = Some pin) pincode_df with
  | [] => [ {| h_PIN_CODE := pin; h_ADDR_CITY := CPA_ADDR_CITY a;
               h_Latitude := None; h_Longitude := None |} ]
  | os => map (λ o, {| h_PIN_CODE := pin; h_ADDR_CITY := CPA_ADDR_CITY a;
                       h_Latitude := o_Latitude o;
                       h_Longitude := o_Longitude o |}) os
  end.

(** [merged_df] after the rows without coordinates are removed; both
    tables are cleaned before the merge. *)
Definition heat_merged_df (address_df : list AddressRow)
    (pincode_df : list OfficeRow) : list HeatRow :=
  filter (λ r, is_Some (h_Latitude r) ∧ is_Some (h_Longitude r))
    (flat_map (λ a, match CPA_PIN_CODE a with
                    | Some pin => heat_merge_row (clean_pincode_df pincode_df) pin a
                    | None => []
                    end) address_df).

Global Instance Q_eq_dec : EqDecision Q.
Proof. solve_decision. Defined.

(** The grouping key of a row: its coordinates, compared by value (a
    rational is represented by its reduced fraction). *)
Definition point (r : HeatRow) : option (Q * Q) :=
  match h_Latitude r, h_Longitude r with
  | Some lat, Some lng => Some (Qred lat, Qred lng)
  | _, _ => None
  end.

Definition point_le (a b : Q * Q) : Prop :=
  (a.1 < b.1)%Q ∨ ((a.1 == b.1)%Q ∧ (a.2 <= b.2)%Q).

Global Instance point_le_dec : RelDecision point_le.
Proof.
  intros a b. unfold point_le.
  destruct (Qlt_le_dec a.1 b.1) as [?|Hle]; [left; by left|].
  destruct (Qeq_dec a.1 b.1) as [Heq|Hne].
  - destruct (Qlt_le_dec b.2 a.2) as [Hlt|?]; [|left; by right].
    right. intros [Hl|[_ Hl]].
    + by apply (Qlt_not_le _ _ Hl).
    + by apply (Qlt_not_le _ _ Hlt).
  - right. intros [Hl|[? _]]; [|done]. by apply (Qlt_not_le _ _ Hl).
Defined.

(** [merged_df.groupby(['Latitude', 'Longitude']).size().reset_index(name='count')] *)
Definition location_counts (merged_df : list HeatRow) : list (Q * Q * nat) :=
  let points := omap point merged_df in
  map (λ k, (k, length (filter (λ p, p = k) points)))
    (merge_sort point_le (unique points)).

(* ================================================================== *)
(** ** fetch_coordinates.py over a column with fractional cells *)

(** [pd.to_numeric] leaves a float in every cell of [CPA_PIN_CODE], and a
    cell such as 5.5 passes [dropna].  [AddressRow] keeps a whole number
    for the pincode, which loses nothing in [app.py], where a fractional
    key joins no cache row.  The reconciler is different: it takes the
    distinct floats, and truncates with [int(pincode)] only where it asks
    the provider, prints and stores, so that two cells can lead to one
    query and one stored pincode.  This module is the reconciler over the
    column of floats as they are (finite ones, as rationals; [None] is
    NaN); [main_cells] below shows that it is [main] when every cell is a
    whole number. *)
Module Cells.

(** [int(pincode)]: truncation toward zero. *)
Definition int (x : Q) : Z := Qnum x ÷ Z.pos (Qden x).

Definition whole (x : Q) : Prop := (inject_Z (int x) == x)%Q.

Global Instance whole_dec x : Decision (whole x).
Proof. unfold whole. apply Qeq_dec. Defined.

(** Every number of the column is a whole number. *)
Definition whole_column (column : list (option Q)) : Prop :=
  Forall whole (omap id column).

(** The column [CPA_PIN_CODE] of an address table with whole pincodes. *)
Definition column (address_csv : list AddressRow) : list (option Q) :=
  map (λ a, inject_Z <$> CPA_PIN_CODE a) address_csv.

(** [sorted(address_df['CPA_PIN_CODE'].unique())] after [dropna]; equal
    floats are one value (a rational is represented by its reduced
    fraction). *)
Definition unique_pincodes (column : list (option Q)) : list Q :=
  merge_sort Qle (unique (Qred <$> omap id column)).

(** [p in cached_pincodes] for a float [p] and the set of the integers of
    the cache file: 5.0 is in the set that holds 5, and 5.5 is in no such
    set. *)
Definition cached (cached_pincodes : gset Z) (p : Q) : Prop :=
  whole p ∧ int p ∈ cached_pincodes.

Definition pincodes_to_fetch (cache_file : option (list CacheRow))
    (response : string) (column : list (option Q)) : list Q :=
  filter (λ p, ¬ cached (cached_pincodes_of cache_file response) p)
    (unique_pincodes column).

(** The part of [main] from "Load address data" on.  The loop passes each
    float to [int] wherever it uses it: in the progress line, in the query
    and in the stored row. *)
Definition reconcile (cache_file : option (list CacheRow))
    (cached_pincodes : gset Z) (column : list (option Q))
    (confirm : string) (gmaps : Z → GeoResponse)
    : option (list CacheRow) * list Event :=
  let unique_pincodes := unique_pincodes column in
  let pincodes_to_fetch :=
    filter (λ p, ¬ cached cached_pincodes p) unique_pincodes in
  let head := [EFoundUnique (length unique_pincodes);
               ENeedToFetch (length pincodes_to_fetch)] in
  if decide (length pincodes_to_fetch = 0%nat) then
    (cache_file, head ++ [EAllCached])
  else if decide (confirm = "y") then
    let '(results, ev) :=
      fetch_loop gmaps (length pincodes_to_fetch) 1
        (int <$> pincodes_to_fetch) in
    let combined_df :=
      if decide (cached_pincodes ≠ ∅)
      then default [] cache_file ++ results
      else results in
    (Some combined_df,
     head ++ [EWillMake (length pincodes_to_fetch)] ++ ev
       ++ [ESaved (length results) (length combined_df);
           ESummaryProcessed (length results);
           ESummarySuccessful (length results)])
  else
    (cache_file, head ++ [EWillMake (length pincodes_to_fetch); ECancelled]).

Definition main (cache_file : option (list CacheRow))
    (column : list (option Q)) (response confirm : string)
    (gmaps : Z → GeoResponse) : option (list CacheRow) * list Event :=
  match cache_file with
  | Some cached_df =>
      if decide (response = "U") then
        (cache_file, [ECacheExists; EUsingExisting (length cached_df)])
      else if decide (response = "A") then
        let cached_pincodes : gset Z := list_to_set (map pincode cached_df) in
        let '(file, ev) :=
          reconcile cache_file cached_pincodes column confirm gmaps in
        (file, ECacheExists :: EFoundCached (size cached_pincodes) :: ev)
      else
        let '(file, ev) := reconcile cache_file ∅ column confirm gmaps in
        (file, ECacheExists :: EWillRefetch :: ev)
  | None => reconcile cache_file ∅ column confirm gmaps
  end.

End Cells.

(** An address column with the cells 5 and 5.5, and a provider that knows
    pincode 5. *)
Definition fractional_column : list (option Q) :=
  [Some 5%Q; None; Some (11 # 2)%Q].

Definition gmaps_five (p : Z) : GeoResponse :=
  if decide (p = 5) then
    GeoResult [ {| location := Some (10, 76)%Q; address_components := [];
                   c_formatted_address := "5" |} ]
  else GeoResult [].

(** A column of whole numbers, one of them written as a fraction that is
    not reduced. *)
Definition whole_column_sample : list (option Q) :=
  [Some 110001%Q; Some (1120002 # 2)%Q; None; Some 600001%Q; Some 110001%Q].

(* ================================================================== *)
(** * Properties *)

(** ** Lists *)

Section unique.
Context `{EqDecision A}.
Implicit Types l : list A.

Lemma elem_of_unique l a : a ∈ unique l ↔ a ∈ l.
Proof.
  induction l as [|b l IH]; simpl; [done|].
  rewrite !elem_of_cons, list_elem_of_filter, IH.
  destruct (decide (a = b)); tauto.
Qed.

Lemma NoDup_unique l : NoDup (unique l).
Proof.
  induction l as [|b l IH]; simpl; [constructor|].
  constructor.
  - rewrite list_elem_of_filter. tauto.
  - by apply NoDup_filter.
Qed.

End unique.

Lemma filter_none {A} (P : A → Prop) `{∀ a, Decision (P a)} l :
  Forall (λ a, ¬ P a) l → filter P l = [].
Proof.
  induction 1 as [|a l Ha _ IH]; [done|].
  by rewrite filter_cons, decide_False.
Qed.

Lemma filter_all {A} (P : A → Prop) `{∀ a, Decision (P a)} l :
  Forall P l → filter P l = l.
Proof.
  induction 1 as [|a l Ha _ IH]; [done|].
  by rewrite filter_cons, decide_True, IH.
Qed.

Lemma Qsum_app l1 l2 : (Qsum (l1 ++ l2) == Qsum l1 + Qsum l2)%Q.
Proof.
  induction l1 as [|a l1 IH]; simpl.
  - ring.
  - rewrite IH. ring.
Qed.

Lemma Qsum_Permutation l1 l2 : l1 ≡ₚ l2 → (Qsum l1 == Qsum l2)%Q.
Proof.
  induction 1 as [|a l1 l2 _ IH|a b l|l1 l2 l3 _ IH1 _ IH2]; simpl.
  - reflexivity.
  - by rewrite IH.
  - ring.
  - by rewrite IH1.
Qed.

Lemma sum_list_with_map {A B} (f : B → nat) (g : A → B) l :
  sum_list_with f (map g l) = sum_list_with (λ a, f (g a)) l.
Proof. induction l; simpl; auto. Qed.

(** Each row falls in the group of exactly one key. *)
Lemma sum_group_sizes_cons {A} (key : A → Z) (keys : list Z) a (l : list A) :
  NoDup keys →
  sum_list_with (λ k, length (filter (λ a, key a = k) (a :: l))) keys
  = ((if decide (key a ∈ keys) then 1 else 0)
     + sum_list_with (λ k, length (filter (λ a, key a = k) l)) keys)%nat.
Proof.
  induction 1 as [|k keys Hk _ IH]; [done|].
  cbn [sum_list_with]. rewrite IH, filter_cons. clear IH.
  destruct (decide (key a = k)) as [Heq|Hne]; simpl.
  - rewrite (decide_True (P := key a ∈ k :: keys)) by (rewrite Heq; left).
    rewrite decide_False by (by rewrite Heq). lia.
  - destruct (decide (key a ∈ keys)) as [Hin|Hin].
    + rewrite decide_True by (by right). lia.
    + rewrite decide_False; [lia|].
      rewrite elem_of_cons. tauto.
Qed.

Lemma sum_group_sizes {A} (key : A → Z) (keys : list Z) (l : list A) :
  NoDup keys →
  Forall (λ a, key a ∈ keys) l →
  sum_list_with (λ k, length (filter (λ a, key a = k) l)) keys = length l.
Proof.
  intros Hnd. induction 1 as [|a l Ha _ IH]; simpl.
  - clear Hnd. induction keys; simpl; auto.
  - rewrite sum_group_sizes_cons, IH by done.
    by rewrite decide_True.
Qed.

(** ** The two sorts implement the library interface *)

Lemma insert_before_Permutation a l : insert_before a l ≡ₚ a :: l.
Proof.
  induction l as [|b l IH]; simpl; [done|].
  destruct (decide _); [|done]. by rewrite IH, Permutation_swap.
Qed.

Lemma insert_after_Permutation a l : insert_after a l ≡ₚ a :: l.
Proof.
  induction l as [|b l IH]; simpl; [done|].
  destruct (decide _); [|done]. by rewrite IH, Permutation_swap.
Qed.

Lemma insert_before_Sorted a l :
  Sorted count_desc l → Sorted count_desc (insert_before a l).
Proof.
  induction 1 as [|b l Hs IH Hhd]; simpl; [by repeat constructor|].
  destruct (decide _) as [Hlt|Hge].
  - constructor; [done|].
    destruct Hhd as [|c l Hbc]; simpl.
    + constructor. unfold count_desc. lia.
    + destruct (decide _); constructor; unfold count_desc in *; lia.
  - constructor; [by constructor|]. constructor. unfold count_desc. lia.
Qed.

Lemma insert_after_Sorted a l :
  Sorted count_desc l → Sorted count_desc (insert_after a l).
Proof.
  induction 1 as [|b l Hs IH Hhd]; simpl; [by repeat constructor|].
  destruct (decide _) as [Hle|Hgt].
  - constructor; [done|].
    destruct Hhd as [|c l Hbc]; simpl.
    + constructor. unfold count_desc. lia.
    + destruct (decide _); constructor; unfold count_desc in *; lia.
  - constructor; [by constructor|]. constructor. unfold count_desc. lia.
Qed.

Lemma stable_sort_desc_Permutation l : stable_sort_desc l ≡ₚ l.
Proof.
  induction l as [|a l IH]; simpl; [done|].
  by rewrite insert_before_Permutation, IH.
Qed.

Lemma stable_sort_desc_Sorted l : Sorted count_desc (stable_sort_desc l).
Proof.
  induction l as [|a l IH]; simpl; [constructor|].
  by apply insert_before_Sorted.
Qed.

Lemma unstable_sort_desc_Permutation l : unstable_sort_desc l ≡ₚ l.
Proof.
  induction l as [|a l IH]; simpl; [done|].
  by rewrite insert_after_Permutation, IH.
Qed.

Lemma unstable_sort_desc_Sorted l : Sorted count_desc (unstable_sort_desc l).
Proof.
  induction l as [|a l IH]; simpl; [constructor|].
  by apply insert_after_Sorted.
Qed.

Definition stable_sort : SortValues :=
  {| sort_values := stable_sort_desc;
     sort_values_Permutation := stable_sort_desc_Permutation;
     sort_values_Sorted := stable_sort_desc_Sorted |}.

Definition unstable_sort : SortValues :=
  {| sort_values := unstable_sort_desc;
     sort_values_Permutation := unstable_sort_desc_Permutation;
     sort_values_Sorted := unstable_sort_desc_Sorted |}.

Lemma insert_before_filter a l n :
  filter (λ s, customer_count s = n) (insert_before a l)
  = filter (λ s, customer_count s = n) (a :: l).
Proof.
  induction l as [|b l IH]; simpl; [done|].
  destruct (decide (customer_count a < customer_count b)%nat) as [Hlt|?];
    [|done].
  rewrite (filter_cons _ b), IH, !filter_cons.
  repeat destruct (decide (customer_count _ = n)); try done. lia.
Qed.

Lemma stable_sort_stable : stable stable_sort.
Proof.
  intros l n. simpl. induction l as [|a l IH]; simpl; [done|].
  by rewrite insert_before_filter, !filter_cons, IH.
Qed.

(** ** Grouping *)

Lemma elem_of_group_keys df k : k ∈ group_keys df ↔ k ∈ map m_PIN_CODE df.
Proof.
  unfold group_keys. by rewrite merge_sort_Permutation, elem_of_unique.
Qed.

Lemma NoDup_group_keys df : NoDup (group_keys df).
Proof.
  unfold group_keys. rewrite merge_sort_Permutation. apply NoDup_unique.
Qed.

Lemma group_nonempty df k : k ∈ group_keys df → group df k ≠ [].
Proof.
  rewrite elem_of_group_keys, list_elem_of_fmap. intros (r & -> & Hr) Hnil.
  assert (r ∈ group df (m_PIN_CODE r)) as Hin
    by (by apply list_elem_of_filter).
  rewrite Hnil in Hin. by apply elem_of_nil in Hin.
Qed.

Lemma group_keys_nil_inv df : group_keys df = [] → df = [].
Proof.
  intros Hk. destruct df as [|r df]; [done|].
  assert (m_PIN_CODE r ∈ group_keys (r :: df)) as Hin
    by (apply elem_of_group_keys; left).
  rewrite Hk in Hin. by apply elem_of_nil in Hin.
Qed.

Lemma sum_counts_group_keys df :
  sum_list_with (λ k, length (group df k)) (group_keys df) = length df.
Proof.
  apply sum_group_sizes; [apply NoDup_group_keys|].
  apply Forall_forall. intros r Hr.
  apply elem_of_group_keys, list_elem_of_fmap. eauto.
Qed.

(** ** The aggregation never raises *)

Lemma most_common_Ok x : x ≠ [] → most_common x = Ok (most_common_value x).
Proof.
  unfold most_common, most_common_value. intros Hx.
  destruct (mode x); [|done]. by destruct x.
Qed.

Lemma agg_group_Ok df k :
  k ∈ group_keys df →
  agg_group df k =
    Ok {| l_PIN_CODE := k;
          l_Latitude := median (map Latitude (group df k));
          l_Longitude := median (map Longitude (group df k));
          l_ADDR_CITY := most_common_value (map m_ADDR_CITY (group df k));
          l_StateName := most_common_value (map StateName (group df k)) |}.
Proof.
  intros Hk%group_nonempty. unfold agg_group.
  rewrite !most_common_Ok; [done|..]; by destruct (group df k).
Qed.

Lemma rmapM_Ok {A B} (f : A → result B) (g : A → B) l :
  Forall (λ a, f a = Ok (g a)) l → rmapM f l = Ok (map g l).
Proof.
  induction 1 as [|a l Ha _ IH]; simpl; [done|]. by rewrite Ha, IH.
Qed.

(** ** The join of counts and locations is one row per key *)

Lemma filter_key_NoDup {B} (pin : B → Z) (loc : Z → B) keys k :
  (∀ k', pin (loc k') = k') →
  NoDup keys → k ∈ keys →
  filter (λ l, pin l = k) (map loc keys) = [loc k].
Proof.
  intros Hpin. induction 1 as [|k' keys Hk' Hnd IH]; intros Hin.
  - by apply elem_of_nil in Hin.
  - simpl. rewrite filter_cons, Hpin.
    destruct (decide (k' = k)) as [->|Hne].
    + f_equal. clear IH Hin. induction keys as [|k2 keys IH2]; [done|].
      simpl. rewrite filter_cons, Hpin.
      rewrite decide_False by (intros ->; apply Hk'; left).
      apply IH2; [|by inversion Hnd].
      intros ?. apply Hk'. by right.
    + apply IH. apply elem_of_cons in Hin as [?|?]; [congruence|done].
Qed.

Lemma merge_inner_keys total (c : Z → nat) (loc : Z → LocationRow) keys :
  (∀ k, l_PIN_CODE (loc k) = k) →
  NoDup keys →
  merge_inner total (map (λ k, (k, c k)) keys) (map loc keys)
  = map (λ k, summary_row total (k, c k) (loc k)) keys.
Proof.
  intros Hpin Hnd. unfold merge_inner.
  assert (∀ ks, ks ⊆ keys →
    flat_map (λ kc, map (summary_row total kc)
                      (filter (λ l, l_PIN_CODE l = kc.1) (map loc keys)))
             (map (λ k, (k, c k)) ks)
    = map (λ k, summary_row total (k, c k) (loc k)) ks) as Hgen.
  { induction ks as [|k ks IH]; intros Hsub; [done|].
    simpl. rewrite (filter_key_NoDup l_PIN_CODE loc) by set_solver.
    simpl. f_equal. apply IH. set_solver. }
  by apply Hgen.
Qed.

(** The summary before ordering has one row per pincode of the table, in
    ascending pincode order; the aggregation does not raise. *)
Lemma pincode_summary_unsorted_spec df :
  pincode_summary_unsorted df = Ok (map (summary_of df) (group_keys df)).
Proof.
  unfold pincode_summary_unsorted, pincode_locations.
  erewrite rmapM_Ok; last first.
  { apply Forall_forall. intros k Hk. by apply agg_group_Ok. }
  simpl. f_equal. unfold pincode_counts.
  rewrite (merge_inner_keys (length df) (λ k, length (group df k))
             (λ k, {| l_PIN_CODE := k;
                      l_Latitude := median (map Latitude (group df k));
                      l_Longitude := median (map Longitude (group df k));
                      l_ADDR_CITY := most_common_value (map m_ADDR_CITY (group df k));
                      l_StateName := most_common_value (map StateName (group df k)) |}));
    [done|done|apply NoDup_group_keys].
Qed.

Lemma pincode_summary_spec `{SortValues} df :
  pincode_summary df = Ok (sort_values (map (summary_of df) (group_keys df))).
Proof. unfold pincode_summary. by rewrite pincode_summary_unsorted_spec. Qed.

(** ** The joined view and the resolved records *)

Lemma filter_key_length {B} (key : B → Z) (l : list B) k :
  NoDup (map key l) → (length (filter (λ c, key c = k) l) ≤ 1)%nat.
Proof.
  induction l as [|c l IH]; simpl; [lia|].
  intros [Hc Hnd]%NoDup_cons. rewrite filter_cons.
  destruct (decide (key c = k)) as [<-|?]; [|by apply IH].
  simpl. destruct (filter _ l) as [|c' ?] eqn:Hf; simpl; [lia|].
  exfalso. apply Hc.
  assert (c' ∈ filter (λ c0, key c0 = key c) l) as Hin
    by (rewrite Hf; left).
  apply list_elem_of_filter in Hin as [<- Hin].
  apply list_elem_of_fmap. eauto.
Qed.

Lemma filtered_df_app df1 df2 y :
  filtered_df (df1 ++ df2) y = filtered_df df1 y ++ filtered_df df2 y.
Proof. destruct y; simpl; [apply filter_app|done]. Qed.

Lemma view_cons a address_df pincode_coords y :
  filtered_df (load_data (a :: address_df) pincode_coords) y
  = joined_rows pincode_coords y a
    ++ filtered_df (load_data address_df pincode_coords) y.
Proof.
  unfold load_data, merge_left, joined_rows. simpl.
  by rewrite map_app, filter_app, filtered_df_app.
Qed.

Lemma has_coordinates_true r :
  has_coordinates r = true ↔ is_Some (Latitude r) ∧ is_Some (Longitude r).
Proof.
  unfold has_coordinates.
  by rewrite andb_true_iff, !bool_decide_eq_true.
Qed.

Lemma joined_rows_cases pincode_coords y a :
  NoDup (map pincode pincode_coords) →
  (resolved_record pincode_coords y a
     → length (joined_rows pincode_coords y a) = 1%nat)
  ∧ (¬ resolved_record pincode_coords y a
     → length (joined_rows pincode_coords y a) = 0%nat).
Proof.
  intros Hnd. unfold joined_rows, resolved_record.
  destruct (CPA_PIN_CODE a) as [pin|]; [|split; [tauto|by destruct y]].
  pose proof (filter_key_length pincode pincode_coords pin Hnd) as Hlen.
  unfold merge_left_row.
  destruct (filter (λ c, pincode c = pin) pincode_coords)
    as [|c [|c' cs]] eqn:Hf; simpl in Hlen; [| |lia].
  - assert (¬ resolves pincode_coords pin) as Hres.
    { intros (c & Hc & <- & _)%Exists_exists.
      assert (c ∈ filter (λ c0, pincode c0 = pincode c) pincode_coords) as Hin
        by (by apply list_elem_of_filter).
      rewrite Hf in Hin. by apply elem_of_nil in Hin. }
    split; [tauto|]. by destruct y.
  - assert (resolves pincode_coords pin
            ↔ is_Some (latitude c) ∧ is_Some (longitude c)) as Hres.
    { unfold resolves. rewrite Exists_exists. split.
      - intros (c0 & Hc0 & Hpin & Hll).
        assert (c0 ∈ filter (λ c, pincode c = pin) pincode_coords) as Hin
          by (by apply list_elem_of_filter).
        rewrite Hf in Hin. apply list_elem_of_singleton in Hin. by subst.
      - intros Hll. exists c.
        assert (c ∈ filter (λ c, pincode c = pin) pincode_coords) as Hin
          by (rewrite Hf; left).
        apply list_elem_of_filter in Hin as [? ?]. done. }
    rewrite Hres. simpl. rewrite filter_cons, filter_nil.
    destruct (decide (has_coordinates _ = true)) as [Hc|Hc];
      rewrite has_coordinates_true in Hc; simpl in Hc.
    + destruct y as [y|]; simpl; [|tauto].
      rewrite filter_cons, filter_nil. simpl.
      destruct (decide (Year a = Some y)); simpl; tauto.
    + split; [tauto|]. by destruct y.
Qed.

Lemma joined_rows_length pincode_coords y a :
  NoDup (map pincode pincode_coords) →
  length (joined_rows pincode_coords y a)
  = if decide (resolved_record pincode_coords y a) then 1%nat else 0%nat.
Proof.
  intros [H1 H0]%(joined_rows_cases pincode_coords y a).
  destruct (decide _); auto.
Qed.

Lemma view_length address_df pincode_coords y :
  NoDup (map pincode pincode_coords) →
  length (filtered_df (load_data address_df pincode_coords) y)
  = length (resolved_records address_df pincode_coords y).
Proof.
  intros Hnd. unfold resolved_records.
  induction address_df as [|a address_df IH]; [by destruct y|].
  rewrite view_cons, length_app, joined_rows_length, IH by done.
  rewrite filter_cons. by destruct (decide _).
Qed.

(** ** Counts and percentages *)

Lemma Qsum_percentages (c : Z → nat) (total : Q) keys :
  (Qsum (map (λ k, count_to_Q (c k) / total * 100) keys)
   == count_to_Q (sum_list_with c keys) / total * 100)%Q.
Proof.
  induction keys as [|k keys IH]; simpl.
  - unfold count_to_Q. simpl. unfold Qdiv. ring.
  - rewrite IH. unfold count_to_Q.
    rewrite Nat2Z.inj_add, inject_Z_plus. unfold Qdiv. ring.
Qed.

Lemma Qsum_percentage_summary df :
  df ≠ [] →
  (Qsum (map percentage (map (summary_of df) (group_keys df))) == 100)%Q.
Proof.
  intros Hdf. rewrite map_map. simpl.
  rewrite (Qsum_percentages (λ k, length (group df k))).
  rewrite sum_counts_group_keys.
  assert (¬ (count_to_Q (length df) == 0)%Q) as Hnz.
  { unfold count_to_Q, Qeq. simpl. destruct df; [done|]. simpl length. lia. }
  field. exact Hnz.
Qed.

(* ================================================================== *)
(** * Claims *)

(** C1, as stated, fails: the left join of [load_data] yields one row per
    matching cache row, so over a cache that holds several rows for one
    pincode a record is counted several times.  Over [skewed_cache] (three
    rows for 560001) exactly one record of [sample_address] resolves, and
    the customer counts of the summary add up to 3. *)
Lemma C1_counts_counterexample :
  ∃ summaries,
    dashboard (H := stable_sort) sample_address skewed_cache None = Ok summaries
    ∧ length (resolved_records sample_address skewed_cache None) = 1%nat
    ∧ sum_list_with customer_count summaries = 3%nat.
Proof. eexists. split; [by vm_compute|]. split; by vm_compute. Qed.

(** C1, amended.  For every view (a year or all years) over a cache that
    holds at most one row per pincode, the aggregation returns a summary
    whose customer counts add up to the number of cleaned records of the
    view whose pincode resolves in the cache; the summary is empty when
    there is no such record, and otherwise its percentages add up to 100
    (in exact arithmetic). *)
Theorem C1_counts_and_percentages `{SortValues}
    (address_df : list AddressRow) (pincode_coords : list CacheRow)
    (selected_year : option Z) :
  NoDup (map pincode pincode_coords) →
  ∃ summaries,
    dashboard address_df pincode_coords selected_year = Ok summaries
    ∧ sum_list_with customer_count summaries
      = length (resolved_records address_df pincode_coords selected_year)
    ∧ (resolved_records address_df pincode_coords selected_year = []
       → summaries = [])
    ∧ (resolved_records address_df pincode_coords selected_year ≠ []
       → (Qsum (map percentage summaries) == 100)%Q).
Proof.
  intros Hnd. unfold dashboard.
  set (df := filtered_df (load_data address_df pincode_coords) selected_year).
  assert (length df = length (resolved_records address_df pincode_coords
                                selected_year)) as Hlen
    by (by apply view_length).
  eexists. split; [apply pincode_summary_spec|].
  split; [|split].
  - rewrite sort_values_Permutation, <- Hlen, <- sum_counts_group_keys.
    by rewrite sum_list_with_map.
  - intros Hnil. rewrite Hnil in Hlen. apply nil_length_inv in Hlen.
    rewrite Hlen. apply Permutation_nil_r. apply sort_values_Permutation.
  - intros Hne.
    rewrite (Qsum_Permutation _ (map percentage (map (summary_of df) (group_keys df))))
      by (by rewrite sort_values_Permutation).
    apply Qsum_percentage_summary.
    intros Hdf. rewrite Hdf in Hlen. symmetry in Hlen.
    by apply nil_length_inv in Hlen.
Qed.

Lemma C1_witness :
  ∃ summaries,
    dashboard (H := stable_sort) sample_address sample_cache None = Ok summaries
    ∧ sum_list_with customer_count summaries
      = length (resolved_records sample_address sample_cache None)
    ∧ (resolved_records sample_address sample_cache None = [] → summaries = [])
    ∧ (resolved_records sample_address sample_cache None ≠ []
       → (Qsum (map percentage summaries) == 100)%Q).
Proof.
  apply (C1_counts_and_percentages (H := stable_sort)
           sample_address sample_cache None).
  apply (bool_decide_unpack _). by vm_compute.
Defined.

(** ** Median *)

Global Instance Qle_total : Total Qle.
Proof.
  intros x y. destruct (Qlt_le_dec y x) as [Hlt|Hle]; [right|by left].
  by apply Qlt_le_weak.
Qed.

Lemma dropna_values_Some {A} (v : list A) : dropna_values (map Some v) = v.
Proof. induction v as [|a v IH]; simpl; [done|]. by f_equal. Qed.

Lemma all_present {A B} (f : A → option B) (l : list A) :
  Forall (λ a, is_Some (f a)) l → map f l = map Some (omap f l).
Proof.
  induction 1 as [|a l [b Hb] _ IH]; simpl; [done|].
  rewrite Hb. simpl. by f_equal.
Qed.

(** The library median of a non-empty column without missing cells is the
    median in the sense of the specification. *)
Lemma median_is_median (v : list Q) :
  v ≠ [] → ∃ m, median (map Some v) = Some m ∧ is_median v m.
Proof.
  intros Hv. unfold median, is_median. rewrite dropna_values_Some.
  pose proof (merge_sort_Permutation Qle v) as Hperm.
  pose proof (Sorted_merge_sort Qle v) as Hsort.
  pose proof (Permutation_length Hperm) as Hlen.
  set (s := merge_sort Qle v) in *. rewrite Hlen.
  assert (0 < length v)%nat as Hpos by (destruct v; [done|simpl; lia]).
  destruct (Nat.eqb_spec (length v) 0) as [?|_]; [lia|].
  assert (length v / 2 < length s)%nat as Hmid
    by (rewrite Hlen; apply Nat.div_lt; lia).
  destruct (lookup_lt_is_Some_2 s _ Hmid) as [b Hb].
  destruct (Nat.odd (length v)) eqn:Hodd.
  - exists b. split; [done|]. by exists s.
  - assert (length v / 2 - 1 < length s)%nat as Hlow by lia.
    destruct (lookup_lt_is_Some_2 s _ Hlow) as [a Ha].
    rewrite Ha, Hb. eexists. split; [done|].
    exists s. eauto 10.
Qed.

Global Instance Qle_transitive : Transitive Qle.
Proof. intros x y z. apply Qle_trans. Qed.

(** In an ascending list, the value at position [i] has more than [i]
    values at or below it, and a smaller value has at most [i]. *)
Lemma sorted_rank_lower (s : list Q) i x :
  StronglySorted Qle s → s !! i = Some x →
  (i < length (filter (λ y, y <= x)%Q s))%nat.
Proof.
  intros Hs. revert i. induction Hs as [|a s Hs IH Hall]; intros i Hi.
  - by rewrite lookup_nil in Hi.
  - destruct i as [|j]; simpl in Hi.
    + injection Hi as ->. rewrite filter_cons_True by apply Qle_refl.
      simpl. lia.
    + rewrite filter_cons_True.
      * simpl. apply IH in Hi. lia.
      * rewrite Forall_forall in Hall. apply Hall.
        by eapply list_elem_of_lookup_2.
Qed.

Lemma sorted_rank_upper (s : list Q) i x x' :
  StronglySorted Qle s → s !! i = Some x' → (x < x')%Q →
  (length (filter (λ y, y <= x)%Q s) ≤ i)%nat.
Proof.
  intros Hs. revert i. induction Hs as [|a s Hs IH Hall]; intros i Hi Hlt.
  - simpl. lia.
  - destruct i as [|j]; simpl in Hi.
    + injection Hi as ->.
      rewrite filter_none; [simpl; lia|].
      constructor.
      * intros Hle. by apply (Qlt_not_le _ _ Hlt).
      * eapply Forall_impl; [exact Hall|]. simpl. intros y Hy Hle.
        apply (Qlt_not_le _ _ Hlt). by transitivity y.
    + specialize (IH j Hi Hlt). rewrite filter_cons.
      destruct (decide _); simpl; lia.
Qed.

(** Two ascending arrangements of the same values agree position by
    position, up to equality of rationals. *)
Lemma sorted_lookup_unique (s s' : list Q) i x x' :
  s ≡ₚ s' → Sorted Qle s → Sorted Qle s' →
  s !! i = Some x → s' !! i = Some x' → (x == x')%Q.
Proof.
  intros Hperm Hs%Sorted_StronglySorted Hs'%Sorted_StronglySorted Hx Hx';
    [|apply _..].
  assert (∀ y, length (filter (λ z, z <= y)%Q s)
               = length (filter (λ z, z <= y)%Q s')) as Hcount
    by (intros y; by rewrite Hperm).
  destruct (Q_dec x x') as [[Hlt|Hgt]|Heq]; [| |done].
  - pose proof (sorted_rank_lower s i x Hs Hx).
    pose proof (sorted_rank_upper s' i x x' Hs' Hx' Hlt).
    rewrite Hcount in *. lia.
  - pose proof (sorted_rank_lower s' i x' Hs' Hx').
    pose proof (sorted_rank_upper s i x' x Hs Hx Hgt).
    rewrite Hcount in *. lia.
Qed.

(** The median of a column is determined up to equality of rationals. *)
Lemma is_median_unique (v : list Q) (m m' : Q) :
  is_median v m → is_median v m' → (m == m')%Q.
Proof.
  intros (s & Hp & Hs & Hm) (s' & Hp' & Hs' & Hm').
  assert (s ≡ₚ s') as Hperm by (by rewrite Hp, Hp').
  destruct (Nat.odd (length v)).
  - by eapply sorted_lookup_unique.
  - destruct Hm as (a & b & Ha & Hb & ->).
    destruct Hm' as (a' & b' & Ha' & Hb' & ->).
    rewrite (sorted_lookup_unique s s' _ a a' Hperm Hs Hs' Ha Ha').
    rewrite (sorted_lookup_unique s s' _ b b' Hperm Hs Hs' Hb Hb').
    reflexivity.
Qed.

(** ** Rows of a view carry coordinates *)

Lemma load_data_coordinates address_df pincode_coords y :
  Forall (λ r, is_Some (Latitude r) ∧ is_Some (Longitude r))
    (filtered_df (load_data address_df pincode_coords) y).
Proof.
  apply Forall_forall. intros r Hr.
  assert (r ∈ load_data address_df pincode_coords) as Hin.
  { destruct y; [|done]. simpl in Hr.
    by apply list_elem_of_filter in Hr as [_ ?]. }
  unfold load_data in Hin. apply list_elem_of_filter in Hin as [Hc _].
  by apply has_coordinates_true.
Qed.

Lemma group_coordinates address_df pincode_coords y k :
  let g := group (filtered_df (load_data address_df pincode_coords) y) k in
  map Latitude g = map Some (omap Latitude g)
  ∧ map Longitude g = map Some (omap Longitude g).
Proof.
  intros g.
  assert (Forall (λ r, is_Some (Latitude r) ∧ is_Some (Longitude r)) g) as Hg.
  { apply Forall_forall. intros r [_ Hr]%list_elem_of_filter.
    revert r Hr. apply Forall_forall, load_data_coordinates. }
  split; apply all_present; eapply Forall_impl; eauto; simpl; tauto.
Qed.

Lemma length_omap_present {A B} (f : A → option B) (l : list A) :
  map f l = map Some (omap f l) → length (omap f l) = length l.
Proof. intros Heq. by rewrite <- (length_map Some), <- Heq, length_map. Qed.

(** C2.  The summary holds exactly one row for every pincode of the view,
    and the latitude and longitude of that row are the medians of the
    latitudes and longitudes of the records of the view with that pincode
    (every such record has both): the middle value of the sorted values
    for an odd number of records, the average of the two middle values for
    an even number (a value that is unique up to equality of rationals).
    It is not the mean: over a cache that holds three rows 12, 15, 12 for
    one pincode, the latitude of the summary is 12 while the mean is 13. *)
Theorem C2_median_coordinates :
  (∀ (S : SortValues) (address_df : list AddressRow)
     (pincode_coords : list CacheRow) (selected_year : option Z),
     let df := filtered_df (load_data address_df pincode_coords)
                 selected_year in
     ∃ summaries,
       dashboard address_df pincode_coords selected_year = Ok summaries
       ∧ NoDup (map s_PIN_CODE summaries)
       ∧ (∀ s, s ∈ summaries → s_PIN_CODE s ∈ map m_PIN_CODE df)
       ∧ ∀ p, p ∈ map m_PIN_CODE df →
           let records := filter (λ r, m_PIN_CODE r = p) df in
           ∃ s lats lngs lat lng,
             s ∈ summaries ∧ s_PIN_CODE s = p
             ∧ records ≠ []
             ∧ map Latitude records = map Some lats
             ∧ map Longitude records = map Some lngs
             ∧ s_Latitude s = Some lat ∧ is_median lats lat
             ∧ s_Longitude s = Some lng ∧ is_median lngs lng
             ∧ (∀ m, is_median lats m → (m == lat)%Q)
             ∧ (∀ m, is_median lngs m → (m == lng)%Q))
  ∧ (∀ S : SortValues,
       ∃ s lat,
         dashboard sample_address skewed_cache None = Ok [s]
         ∧ s_PIN_CODE s = 560001
         ∧ map Latitude (filter (λ r, m_PIN_CODE r = 560001)
                           (load_data sample_address skewed_cache))
           = map Some [12; 15; 12]%Q
         ∧ s_Latitude s = Some lat
         ∧ (lat == 12)%Q
         ∧ ¬ (lat == mean [12; 15; 12])%Q).
Proof.
  split.
  - intros S address_df pincode_coords selected_year df.
    unfold dashboard. fold df.
    eexists. split; [apply pincode_summary_spec|].
    assert (map s_PIN_CODE (map (summary_of df) (group_keys df))
            = group_keys df) as Hkeys
      by (rewrite map_map; apply map_id).
    split; [|split].
    { rewrite sort_values_Permutation, Hkeys. apply NoDup_group_keys. }
    { intros s Hs. apply elem_of_group_keys. rewrite <- Hkeys.
      rewrite sort_values_Permutation in Hs.
      apply list_elem_of_fmap. eauto. }
    intros p Hp. apply elem_of_group_keys in Hp as Hk.
    fold (group df p).
    destruct (group_coordinates address_df pincode_coords selected_year p)
      as [Hlat Hlng].
    fold df in Hlat, Hlng.
    pose proof (group_nonempty df p Hk) as Hne.
    pose proof (length_omap_present _ _ Hlat) as Hlen1.
    pose proof (length_omap_present _ _ Hlng) as Hlen2.
    assert (0 < length (group df p))%nat as Hpos
      by (destruct (group df p); [done|simpl; lia]).
    destruct (median_is_median (omap Latitude (group df p)))
      as (lat & Hmlat & Hislat).
    { intros Hnil. rewrite Hnil in Hlen1. simpl in Hlen1. lia. }
    destruct (median_is_median (omap Longitude (group df p)))
      as (lng & Hmlng & Hislng).
    { intros Hnil. rewrite Hnil in Hlen2. simpl in Hlen2. lia. }
    exists (summary_of df p), (omap Latitude (group df p)),
      (omap Longitude (group df p)), lat, lng.
    split.
    { rewrite sort_values_Permutation. apply list_elem_of_fmap. eauto. }
    simpl. rewrite Hlat at 2. rewrite Hlng at 2. rewrite Hmlat, Hmlng.
    repeat split; try done.
    + intros m Hm. by apply (is_median_unique (omap Latitude (group df p))).
    + intros m Hm. by apply (is_median_unique (omap Longitude (group df p))).
  - intros S.
    pose proof (pincode_summary_spec
                  (filtered_df (load_data sample_address skewed_cache) None))
      as Hspec.
    match type of Hspec with
    | _ = Ok (sort_values ?l) =>
        pose proof (sort_values_Permutation l) as Hperm;
        assert (l = [summary_of (load_data sample_address skewed_cache) 560001])
          as Hl by (by vm_compute)
    end.
    rewrite Hl in Hperm, Hspec. apply Permutation_singleton_r in Hperm.
    rewrite Hperm in Hspec.
    eexists _, _. split; [exact Hspec|].
    split; [by vm_compute|]. split; [by vm_compute|].
    split; [by vm_compute|]. split; [by vm_compute|]. by vm_compute.
Qed.

(** ** Ordering of the summary *)

Lemma StronglySorted_filter {A} (R : relation A) (P : A → Prop)
    `{∀ a, Decision (P a)} l :
  StronglySorted R l → StronglySorted R (filter P l).
Proof.
  induction 1 as [|a l Hs IH Hall]; [constructor|].
  rewrite filter_cons. destruct (decide (P a)); [|done].
  constructor; [done|].
  apply Forall_forall. intros b [_ Hb]%list_elem_of_filter.
  rewrite Forall_forall in Hall. auto.
Qed.

Lemma StronglySorted_le_lt (l : list Z) :
  StronglySorted Z.le l → NoDup l → StronglySorted Z.lt l.
Proof.
  induction 1 as [|a l Hs IH Hall]; [constructor|].
  intros [Ha Hnd]%NoDup_cons. constructor; [auto|].
  apply Forall_forall. intros b Hb.
  rewrite Forall_forall in Hall. specialize (Hall b Hb).
  destruct (decide (a = b)) as [->|?]; [done|lia].
Qed.

Lemma group_keys_ascending df : StronglySorted Z.lt (group_keys df).
Proof.
  apply StronglySorted_le_lt; [|apply NoDup_group_keys].
  unfold group_keys. apply StronglySorted_merge_sort; apply _.
Qed.

Lemma summary_rows_ascending df :
  StronglySorted pin_asc (map (summary_of df) (group_keys df)).
Proof.
  pose proof (group_keys_ascending df) as Hs.
  induction Hs as [|k ks _ IH Hall]; simpl; [constructor|].
  constructor; [done|]. by apply Forall_fmap.
Qed.

Global Instance count_desc_trans : Transitive count_desc.
Proof. unfold count_desc. intros a b c. lia. Qed.

(** In a list descending by count, if the rows of each count are in
    ascending pincode order then the list is in the lexicographic order. *)
Lemma ties_in_order (o : list SummaryRow) :
  StronglySorted count_desc o →
  (∀ n, StronglySorted pin_asc (filter (λ s, customer_count s = n) o)) →
  StronglySorted count_desc_pin_asc o.
Proof.
  induction 1 as [|a o Hs IH Hall]; intros Hties; [constructor|].
  constructor.
  - apply IH. intros n. specialize (Hties n).
    rewrite filter_cons in Hties. destruct (decide _); [|done].
    by apply StronglySorted_inv in Hties as [? _].
  - apply Forall_forall. intros b Hb.
    rewrite Forall_forall in Hall. specialize (Hall b Hb).
    unfold count_desc in Hall. unfold count_desc_pin_asc.
    destruct (decide (customer_count a = customer_count b)) as [Heq|?];
      [right|left; lia].
    split; [done|].
    specialize (Hties (customer_count a)).
    rewrite filter_cons, decide_True in Hties by done.
    apply StronglySorted_inv in Hties as [_ Hlt].
    rewrite Forall_forall in Hlt. apply Hlt.
    by apply list_elem_of_filter.
Qed.

(** A table has one arrangement only in the order count descending, then
    pincode ascending (an order that is strict, so such an arrangement has
    no two rows with the same count and pincode). *)
Lemma lexicographic_unique (rows o1 o2 : list SummaryRow) :
  StronglySorted count_desc_pin_asc o1 → o1 ≡ₚ rows →
  StronglySorted count_desc_pin_asc o2 → o2 ≡ₚ rows →
  o2 = o1.
Proof.
  intros Hs1 Hp1 Hs2 Hp2.
  assert (o1 ≡ₚ o2) as Hperm by (by rewrite Hp1, Hp2).
  clear rows Hp1 Hp2.
  assert (∀ a b, count_desc_pin_asc a b → count_desc_pin_asc b a → False)
    as Hasym by (unfold count_desc_pin_asc; intros a b [?|[? ?]] [?|[? ?]]; lia).
  revert o2 Hs2 Hperm.
  induction Hs1 as [|a o1 Hs1 IH Ha]; intros o2 Hs2 Hperm.
  { by apply Permutation_nil_l in Hperm. }
  destruct Hs2 as [|b o2 Hs2 Hb].
  { by apply Permutation_nil_r in Hperm. }
  assert (a = b) as ->.
  { assert (a ∈ b :: o2) as Hin1 by (rewrite <- Hperm; left).
    assert (b ∈ a :: o1) as Hin2 by (rewrite Hperm; left).
    apply elem_of_cons in Hin1 as [?|Hin1]; [done|].
    apply elem_of_cons in Hin2 as [?|Hin2]; [done|].
    rewrite Forall_forall in Ha, Hb.
    destruct (Hasym a b); auto. }
  f_equal. apply IH; [done|]. by apply (inj (cons b)).
Qed.

(** C3, as stated, fails: the script sorts on the count alone, with the
    library's default algorithm and no second key, and what the library
    promises of that sort leaves the order of equal counts open.  Over
    [tie_address] (one pincode with two customers, a thousand with one
    each) the claimed order does not follow: a sort that meets the
    interface and does not keep equal keys in place returns the thousand
    tied rows out of ascending pincode order. *)
Lemma C3_ties_counterexample :
  ¬ ∀ (S : SortValues) (summaries : list SummaryRow),
      dashboard (H := S) tie_address tie_cache None = Ok summaries →
      StronglySorted count_desc_pin_asc summaries.
Proof.
  intros Hclaim.
  assert (match dashboard (H := unstable_sort) tie_address tie_cache None with
          | Ok l => take 3 (map (λ s, (customer_count s, s_PIN_CODE s)) l)
          | Raise _ => []
          end = [(2%nat, 560001); (1%nat, 561001); (1%nat, 561000)]) as Hrun
    by (vm_compute; reflexivity).
  destruct (dashboard (H := unstable_sort) tie_address tie_cache None)
    as [summaries|] eqn:Hdash; [|discriminate Hrun].
  specialize (Hclaim unstable_sort summaries Hdash).
  destruct summaries as [|a [|b [|c summaries]]]; try discriminate Hrun.
  injection Hrun as Ha1 Ha2 Hb1 Hb2 Hc1 Hc2.
  apply StronglySorted_inv in Hclaim as [Hclaim _].
  apply StronglySorted_inv in Hclaim as [_ Hhd].
  apply Forall_cons in Hhd as [[Hlt|[_ Hlt]] _]; lia.
Qed.

(** C3, amended.  The summary holds one row for every pincode of the view,
    with the number of its records as count, and is sorted descending by
    count, whatever implementation of the library sort is used.  The rows
    enter the sort in ascending pincode order; hence, if the sort keeps
    rows with equal counts in place (is stable), rows with equal counts are
    in ascending pincode order, and the output order is determined by the
    input alone. *)
Theorem C3_sorted_by_count (S : SortValues)
    (address_df : list AddressRow) (pincode_coords : list CacheRow)
    (selected_year : option Z) :
  let df := filtered_df (load_data address_df pincode_coords) selected_year in
  ∃ summaries,
    dashboard address_df pincode_coords selected_year = Ok summaries
    ∧ NoDup (map s_PIN_CODE summaries)
    ∧ (∀ p, p ∈ map s_PIN_CODE summaries ↔ p ∈ map m_PIN_CODE df)
    ∧ Forall (λ s, customer_count s
                   = length (filter (λ r, m_PIN_CODE r = s_PIN_CODE s) df))
        summaries
    ∧ StronglySorted count_desc summaries
    ∧ (stable S →
       StronglySorted count_desc_pin_asc summaries
       ∧ ∀ S' : SortValues, stable S' →
           dashboard (H := S') address_df pincode_coords selected_year
           = Ok summaries).
Proof.
  intros df. unfold dashboard. fold df.
  eexists. split; [apply pincode_summary_spec|].
  assert (map s_PIN_CODE (map (summary_of df) (group_keys df)) = group_keys df)
    as Hkeys by (rewrite map_map; apply map_id).
  assert (StronglySorted count_desc
            (sort_values (map (summary_of df) (group_keys df)))) as Hdesc
    by (apply Sorted_StronglySorted; [apply _|apply sort_values_Sorted]).
  split; [|split; [|split; [|split; [done|]]]].
  - rewrite sort_values_Permutation, Hkeys. apply NoDup_group_keys.
  - intros p. rewrite sort_values_Permutation, Hkeys.
    apply elem_of_group_keys.
  - rewrite sort_values_Permutation.
    apply Forall_forall. by intros s (k & -> & Hk)%list_elem_of_fmap.
  - intros Hstable.
    assert (∀ S' : SortValues, stable S' →
              StronglySorted count_desc_pin_asc
                (sort_values (SortValues := S')
                   (map (summary_of df) (group_keys df)))) as Hlex.
    { intros S' Hstable'. apply ties_in_order.
      - apply Sorted_StronglySorted; [apply _|apply sort_values_Sorted].
      - intros n. rewrite Hstable'.
        apply StronglySorted_filter, summary_rows_ascending. }
    split; [by apply Hlex|].
    intros S' Hstable'. rewrite (pincode_summary_spec (H := S')). f_equal.
    apply (lexicographic_unique (map (summary_of df) (group_keys df))).
    + by apply Hlex.
    + apply sort_values_Permutation.
    + by apply Hlex.
    + apply sort_values_Permutation.
Qed.

Lemma C3_witness :
  ∃ summaries,
    dashboard (H := stable_sort) tie_address tie_cache None = Ok summaries
    ∧ StronglySorted count_desc summaries
    ∧ StronglySorted count_desc_pin_asc summaries.
Proof.
  destruct (C3_sorted_by_count stable_sort tie_address tie_cache None)
    as (summaries & Hrun & _ & _ & _ & Hdesc & Hties).
  exists summaries. split; [exact Hrun|]. split; [exact Hdesc|].
  apply Hties. exact stable_sort_stable.
Defined.

(** ** Where the rows of a view come from *)

(** Every row of a view is one cleaned address record joined with one cache
    row of the same pincode; its city is the cache city, or the record's
    own city when the cache has none; its state is the cache state. *)
Lemma view_row_origin address_df pincode_coords y r :
  r ∈ filtered_df (load_data address_df pincode_coords) y →
  ∃ a c, a ∈ address_df ∧ c ∈ pincode_coords
    ∧ CPA_PIN_CODE a = Some (m_PIN_CODE r) ∧ pincode c = m_PIN_CODE r
    ∧ m_ADDR_CITY r = fillna (city c) (CPA_ADDR_CITY a)
    ∧ StateName r = state c
    ∧ Latitude r = latitude c ∧ Longitude r = longitude c.
Proof.
  intros Hr.
  assert (r ∈ load_data address_df pincode_coords) as Hin.
  { destruct y; [|done]. by apply list_elem_of_filter in Hr as [_ ?]. }
  clear Hr. unfold load_data in Hin.
  apply list_elem_of_filter in Hin as [Hc Hin].
  apply has_coordinates_true in Hc as [Hlat _].
  apply list_elem_of_fmap in Hin as (r0 & -> & Hin).
  unfold merge_left in Hin. apply list_elem_of_In, in_flat_map in Hin.
  destruct Hin as (a & Ha%list_elem_of_In & Hr0%list_elem_of_In).
  destruct (CPA_PIN_CODE a) as [pin|] eqn:Hpin;
    [|by apply elem_of_nil in Hr0].
  unfold merge_left_row in Hr0.
  destruct (filter (λ c, pincode c = pin) pincode_coords) as [|c0 cs] eqn:Hf.
  - apply list_elem_of_singleton in Hr0. subst r0. simpl in Hlat.
    by destruct Hlat.
  - apply list_elem_of_fmap in Hr0 as (c & -> & Hc).
    rewrite <- Hf in Hc. apply list_elem_of_filter in Hc as [Hcp Hc].
    exists a, c. simpl. by rewrite Hpin, Hcp.
Qed.

Lemma mode_all_missing x : Forall (λ v, v = None) x → mode x = [].
Proof.
  intros Hx. unfold mode.
  assert (dropna_values x = []) as ->; [|done].
  induction Hx as [|v x -> _ IH]; simpl; done.
Qed.

Lemma most_common_value_all_missing x :
  Forall (λ v, v = None) x → most_common_value x = None.
Proof.
  intros Hx. unfold most_common_value. rewrite mode_all_missing by done.
  by destruct Hx as [|v x ->].
Qed.

Lemma summary_of_in_dashboard `{SortValues} address_df pincode_coords y k :
  let df := filtered_df (load_data address_df pincode_coords) y in
  group df k ≠ [] →
  ∃ summaries,
    dashboard address_df pincode_coords y = Ok summaries
    ∧ summary_of df k ∈ summaries.
Proof.
  intros df Hne. unfold dashboard. fold df.
  eexists. split; [apply pincode_summary_spec|].
  rewrite sort_values_Permutation. apply list_elem_of_fmap.
  exists k. split; [done|]. apply elem_of_group_keys.
  destruct (group df k) as [|r g] eqn:Hg; [done|].
  assert (r ∈ group df k) as Hr by (rewrite Hg; left).
  apply list_elem_of_filter in Hr as [<- Hr].
  apply list_elem_of_fmap. eauto.
Qed.

(** C10.  If a pincode has a non-empty group in the view and the city of
    every record of the group (the cache city, or the record's own city
    when the cache has none) is missing, the aggregation still returns,
    with a summary row for that pincode whose city is missing: the mode of
    the group is empty and the first value of the group, which is taken
    instead, is missing.  The same holds for the state. *)
Theorem C10_all_missing_labels `{SortValues}
    (address_df : list AddressRow) (pincode_coords : list CacheRow)
    (selected_year : option Z) (k : Z) :
  let df := filtered_df (load_data address_df pincode_coords) selected_year in
  group df k ≠ [] →
  ∃ summaries s,
    dashboard address_df pincode_coords selected_year = Ok summaries
    ∧ s ∈ summaries ∧ s_PIN_CODE s = k
    ∧ (Forall (λ r, m_ADDR_CITY r = None) (group df k) →
         mode (map m_ADDR_CITY (group df k)) = []
         ∧ head (map m_ADDR_CITY (group df k)) = Some None
         ∧ s_ADDR_CITY s = None)
    ∧ (Forall (λ r, StateName r = None) (group df k) →
         mode (map StateName (group df k)) = []
         ∧ head (map StateName (group df k)) = Some None
         ∧ s_StateName s = None).
Proof.
  intros df Hne.
  destruct (summary_of_in_dashboard address_df pincode_coords selected_year k Hne)
    as (summaries & Hrun & Hin).
  fold df in Hin. exists summaries, (summary_of df k).
  split; [done|]. split; [done|]. split; [done|].
  split; intros Hall.
  - assert (Forall (λ v, v = None) (map m_ADDR_CITY (group df k))) as Hcol
      by (by apply Forall_fmap).
    split; [by apply mode_all_missing|].
    split; [|by apply most_common_value_all_missing].
    destruct (group df k) as [|r g]; [done|].
    apply Forall_cons in Hall as [Hr _]. simpl. by rewrite Hr.
  - assert (Forall (λ v, v = None) (map StateName (group df k))) as Hcol
      by (by apply Forall_fmap).
    split; [by apply mode_all_missing|].
    split; [|by apply most_common_value_all_missing].
    destruct (group df k) as [|r g]; [done|].
    apply Forall_cons in Hall as [Hr _]. simpl. by rewrite Hr.
Qed.

Lemma C10_witness :
  ∃ summaries s,
    dashboard (H := stable_sort) sample_address sample_cache None = Ok summaries
    ∧ s ∈ summaries ∧ s_PIN_CODE s = 600001
    ∧ s_ADDR_CITY s = None ∧ s_StateName s = None.
Proof.
  destruct (C10_all_missing_labels (H := stable_sort)
              sample_address sample_cache None 600001)
    as (summaries & s & Hrun & Hin & Hpin & Hcity & Hstate).
  { by vm_compute. }
  exists summaries, s. split; [exact Hrun|]. split; [exact Hin|].
  split; [exact Hpin|]. split.
  - apply Hcity. vm_compute. by repeat constructor.
  - apply Hstate. vm_compute. by repeat constructor.
Defined.

(* ================================================================== *)
(** ** The geocoding adapter *)

Lemma scan_city cs acc c :
  (foldl scan_component acc cs).1 = Some c →
  acc.1 = Some c
  ∨ ∃ comp, comp ∈ cs ∧ "locality" ∈ types comp ∧ long_name comp = c.
Proof.
  revert acc. induction cs as [|comp cs IH]; intros acc; simpl; [by left|].
  intros [Hacc|(comp' & Hin & Hty & Hname)]%IH.
  - unfold scan_component in Hacc.
    destruct (decide ("locality" ∈ types comp)) as [Hloc|?].
    + right. exists comp. simpl in Hacc. split; [left|]. split; congruence.
    + left. by destruct (decide _).
  - right. exists comp'. split; [by right|done].
Qed.

Lemma scan_state cs acc s :
  (foldl scan_component acc cs).2 = Some s →
  acc.2 = Some s
  ∨ ∃ comp, comp ∈ cs ∧ "administrative_area_level_1" ∈ types comp
            ∧ long_name comp = s.
Proof.
  revert acc. induction cs as [|comp cs IH]; intros acc; simpl; [by left|].
  intros [Hacc|(comp' & Hin & Hty & Hname)]%IH.
  - unfold scan_component in Hacc.
    destruct (decide ("locality" ∈ types comp)) as [?|?]; [by left|].
    destruct (decide ("administrative_area_level_1" ∈ types comp)) as [Hadm|?];
      [|by left].
    right. exists comp. simpl in Hacc. split; [left|]. split; congruence.
  - right. exists comp'. split; [by right|done].
Qed.

(** What the loop over the address components leaves in [city] and
    [state]: the last component typed locality, and the last component
    typed administrative_area_level_1 among those not typed locality. *)
Lemma scan_from cs acc :
  (foldl scan_component acc cs).1
  = match last (filter (λ c, "locality" ∈ types c) cs) with
    | Some c => Some (long_name c)
    | None => acc.1
    end
  ∧ (foldl scan_component acc cs).2
    = match last (filter (λ c, ("locality" ∉ types c)
                               ∧ "administrative_area_level_1" ∈ types c) cs) with
      | Some c => Some (long_name c)
      | None => acc.2
      end.
Proof.
  revert acc. induction cs as [|c cs IH]; intros acc; [done|].
  simpl. destruct (IH (scan_component acc c)) as [-> ->].
  rewrite !filter_cons. unfold scan_component.
  destruct (decide ("locality" ∈ types c)) as [Hloc|Hloc];
    destruct (decide ("administrative_area_level_1" ∈ types c)) as [Hadm|Hadm];
    simpl;
    (destruct (decide (_ ∧ _)) as [[Hl Ha]|Hnot]; [try done|try (exfalso; tauto)]);
    rewrite ?last_cons;
    (split; [try done|try done]).
  all: repeat match goal with
              | |- context [last ?l] => destruct (last l)
              end; done.
Qed.

(** C5.  When the provider answers with at least one candidate and the
    first candidate has a coordinate, the adapter succeeds with that
    coordinate.  The city it returns is the name of a component of the
    first candidate typed locality: there is one whenever such a component
    exists (the last one in the list), and with no such component the city
    is missing.  The state it returns is the name of a component of the
    first candidate typed administrative_area_level_1: there is one
    whenever such a component exists that is not also typed locality (the
    last one), and with no component typed administrative_area_level_1 the
    state is missing.  The resolution succeeds in every one of these
    cases, and the candidates after the first have no influence on the
    result. *)
Theorem C5_first_candidate (gmaps : Z → GeoResponse) (p : Z)
    (first : Candidate) (rest : list Candidate) (lat lng : Q) :
  gmaps p = GeoResult (first :: rest) →
  location first = Some (lat, lng) →
  ∃ row,
    (get_coordinates_for_pincode gmaps p).1 = Some row
    ∧ pincode row = p ∧ latitude row = Some lat ∧ longitude row = Some lng
    ∧ city row
      = long_name <$> last (filter (λ comp, "locality" ∈ types comp)
                              (address_components first))
    ∧ state row
      = long_name <$> last (filter
                              (λ comp, ("locality" ∉ types comp)
                                       ∧ "administrative_area_level_1"
                                           ∈ types comp)
                              (address_components first))
    ∧ (∀ c, city row = Some c →
         ∃ comp, comp ∈ address_components first
                 ∧ "locality" ∈ types comp ∧ long_name comp = c)
    ∧ (∀ s, state row = Some s →
         ∃ comp, comp ∈ address_components first
                 ∧ "administrative_area_level_1" ∈ types comp
                 ∧ long_name comp = s)
    ∧ (Exists (λ comp, "locality" ∈ types comp) (address_components first)
       → is_Some (city row))
    ∧ (Exists (λ comp, ("locality" ∉ types comp)
                       ∧ "administrative_area_level_1" ∈ types comp)
         (address_components first)
       → is_Some (state row))
    ∧ (Forall (λ comp, "locality" ∉ types comp) (address_components first)
       → city row = None)
    ∧ (Forall (λ comp, "administrative_area_level_1" ∉ types comp)
         (address_components first)
       → state row = None)
    ∧ (∀ gmaps' rest',
         gmaps' p = GeoResult (first :: rest') →
         get_coordinates_for_pincode gmaps' p
         = get_coordinates_for_pincode gmaps p).
Proof.
  intros Hg Hloc. unfold get_coordinates_for_pincode. rewrite Hg, Hloc.
  eexists. split; [done|]. cbn [fst pincode latitude longitude city state].
  split; [done|]. split; [done|]. split; [done|].
  assert (∀ (P : Component → Prop) `{∀ c, Decision (P c)} cs,
            Exists P cs → is_Some (long_name <$> last (filter P cs)))
    as Hlast.
  { intros P ? cs (c & Hc & HP)%Exists_exists.
    assert (c ∈ filter P cs) as Hin by (by apply list_elem_of_filter).
    destruct (filter P cs) as [|c0 l] using rev_ind;
      [by apply elem_of_nil in Hin|].
    rewrite last_snoc. by eexists. }
  unfold scan_components.
  destruct (scan_from (address_components first) (None, None)) as [Hcity Hstate].
  assert ((foldl scan_component (None, None) (address_components first)).1
          = long_name <$> last (filter (λ comp, "locality" ∈ types comp)
                                  (address_components first))) as Hc
    by (rewrite Hcity; by destruct (last _)).
  assert ((foldl scan_component (None, None) (address_components first)).2
          = long_name <$> last (filter
                                  (λ comp, ("locality" ∉ types comp)
                                           ∧ "administrative_area_level_1"
                                               ∈ types comp)
                                  (address_components first))) as Hs
    by (rewrite Hstate; by destruct (last _)).
  split; [exact Hc|]. split; [exact Hs|].
  split; [|split; [|split; [|split; [|split; [|split]]]]].
  - intros c [Hacc|?]%scan_city; [done|done].
  - intros s [Hacc|?]%scan_state; [done|done].
  - intros Hex. rewrite Hc. by apply Hlast.
  - intros Hex. rewrite Hs. by apply Hlast.
  - intros Hnone.
    destruct (foldl scan_component (None, None) (address_components first)).1
      as [c|] eqn:Hc'; [|done].
    apply scan_city in Hc' as [?|(comp & Hin & Hty & _)]; [done|].
    rewrite Forall_forall in Hnone. by destruct (Hnone comp Hin).
  - intros Hnone.
    destruct (foldl scan_component (None, None) (address_components first)).2
      as [s|] eqn:Hs'; [|done].
    apply scan_state in Hs' as [?|(comp & Hin & Hty & _)]; [done|].
    rewrite Forall_forall in Hnone. by destruct (Hnone comp Hin).
  - intros gmaps' rest' Hg'. by rewrite Hg', Hloc.
Qed.

Lemma C5_witness :
  (∃ row,
     (get_coordinates_for_pincode sample_gmaps 110001).1 = Some row
     ∧ pincode row = 110001
     ∧ latitude row = Some (286 # 10)%Q ∧ longitude row = Some (772 # 10)%Q
     ∧ city row = Some "New Delhi" ∧ state row = Some "Delhi")
  ∧ (∃ row,
       (get_coordinates_for_pincode sample_gmaps 600001).1 = Some row
       ∧ pincode row = 600001
       ∧ latitude row = Some (1309 # 100)%Q
       ∧ longitude row = Some (8028 # 100)%Q
       ∧ city row = None ∧ state row = None).
Proof.
  split.
  - destruct (C5_first_candidate sample_gmaps 110001
                {| location := Some (286 # 10, 772 # 10)%Q;
                   address_components :=
                     [ {| types := ["postal_code"]; long_name := "110001" |};
                       {| types := ["locality"; "political"];
                          long_name := "New Delhi" |};
                       {| types := ["administrative_area_level_1"; "political"];
                          long_name := "Delhi" |} ];
                   c_formatted_address := "New Delhi, Delhi 110001, India" |}
                [ {| location := Some (0, 0)%Q;
                     address_components :=
                       [ {| types := ["locality"]; long_name := "Elsewhere" |} ];
                     c_formatted_address := "Elsewhere" |} ]
                (286 # 10)%Q (772 # 10)%Q)
      as (row & Hrow & Hpin & Hlat & Hlng & Hcity & Hstate & _).
    + reflexivity.
    + reflexivity.
    + exists row. split; [exact Hrow|]. split; [exact Hpin|].
      split; [exact Hlat|]. split; [exact Hlng|]. split.
      * rewrite Hcity. reflexivity.
      * rewrite Hstate. reflexivity.
  - destruct (C5_first_candidate sample_gmaps 600001
                {| location := Some (1309 # 100, 8028 # 100)%Q;
                   address_components :=
                     [ {| types := ["postal_code"]; long_name := "600001" |} ];
                   c_formatted_address := "600001, India" |}
                [] (1309 # 100)%Q (8028 # 100)%Q)
      as (row & Hrow & Hpin & Hlat & Hlng & _ & _ & _ & _ & _ & _
          & Hcity & Hstate & _).
    + reflexivity.
    + reflexivity.
    + exists row. split; [exact Hrow|]. split; [exact Hpin|].
      split; [exact Hlat|]. split; [exact Hlng|]. split.
      * apply Hcity. apply (bool_decide_unpack _). by vm_compute.
      * apply Hstate. apply (bool_decide_unpack _). by vm_compute.
Defined.

(* ================================================================== *)
(** ** The reconciler *)

Lemma elem_of_unique_pincodes address_csv p :
  p ∈ unique_pincodes address_csv ↔ p ∈ omap CPA_PIN_CODE address_csv.
Proof.
  unfold unique_pincodes. by rewrite merge_sort_Permutation, elem_of_unique.
Qed.

Lemma NoDup_unique_pincodes address_csv : NoDup (unique_pincodes address_csv).
Proof.
  unfold unique_pincodes. rewrite merge_sort_Permutation. apply NoDup_unique.
Qed.

(** The three ways [reconcile] ends. *)
Lemma reconcile_nothing_to_fetch cache_file cached address_csv confirm gmaps :
  filter (λ p, p ∉ cached) (unique_pincodes address_csv) = [] →
  reconcile cache_file cached address_csv confirm gmaps
  = (cache_file,
     [EFoundUnique (length (unique_pincodes address_csv));
      ENeedToFetch 0; EAllCached]).
Proof. intros Hnil. unfold reconcile. by rewrite Hnil. Qed.

Lemma reconcile_cancelled cache_file cached address_csv confirm gmaps todo :
  filter (λ p, p ∉ cached) (unique_pincodes address_csv) = todo →
  todo ≠ [] → confirm ≠ "y" →
  reconcile cache_file cached address_csv confirm gmaps
  = (cache_file,
     [EFoundUnique (length (unique_pincodes address_csv));
      ENeedToFetch (length todo); EWillMake (length todo); ECancelled]).
Proof.
  intros Htodo Hne Hconfirm. unfold reconcile. rewrite Htodo.
  rewrite decide_False by (by destruct todo).
  by rewrite decide_False.
Qed.

Lemma reconcile_fetches cache_file cached address_csv gmaps todo :
  let run := fetch_loop gmaps (length todo) 1 todo in
  let combined_df :=
    if decide (cached ≠ ∅) then default [] cache_file ++ run.1 else run.1 in
  filter (λ p, p ∉ cached) (unique_pincodes address_csv) = todo →
  todo ≠ [] →
  reconcile cache_file cached address_csv "y" gmaps
  = (Some combined_df,
     [EFoundUnique (length (unique_pincodes address_csv));
      ENeedToFetch (length todo); EWillMake (length todo)]
     ++ run.2
     ++ [ESaved (length run.1) (length combined_df);
         ESummaryProcessed (length run.1);
         ESummarySuccessful (length run.1)]).
Proof.
  intros run combined_df Htodo Hne. unfold reconcile. rewrite Htodo.
  rewrite decide_False by (by destruct todo).
  rewrite decide_True by done.
  subst combined_df run. by destruct (fetch_loop _ _ _ _).
Qed.

(** [main] outside the use-existing mode is [reconcile] after a prefix of
    console lines. *)
Lemma main_reconcile cache_file address_csv response confirm gmaps :
  cache_file = None ∨ response ≠ "U" →
  ∃ pre,
    main cache_file address_csv response confirm gmaps
    = ((reconcile cache_file (cached_pincodes_of cache_file response)
          address_csv confirm gmaps).1,
       pre ++ (reconcile cache_file (cached_pincodes_of cache_file response)
                 address_csv confirm gmaps).2)
    ∧ geocoded pre = [] ∧ summary_counts pre = [] ∧ failures pre = []
    ∧ announced pre = [] ∧ successful_count pre = [].
Proof.
  intros Hmode. unfold main, cached_pincodes_of.
  destruct cache_file as [cached_df|].
  - destruct Hmode as [?|HU]; [done|].
    rewrite decide_False by done.
    destruct (decide (response = "A")).
    + destruct (reconcile _ _ _ _ _) as [file ev].
      by eexists [_; _].
    + destruct (reconcile _ _ _ _ _) as [file ev].
      by eexists [_; _].
  - exists []. destruct (reconcile _ _ _ _ _). by repeat split.
Qed.

(** C4.  In append mode, when every pincode that occurs in the cleaned
    address records is already in the cache, the run asks the provider
    nothing and leaves the cache file as it was; so does a second append
    run right after it. *)
Theorem C4_append_idempotent (cached_df : list CacheRow)
    (address_csv : list AddressRow) (confirm : string)
    (gmaps : Z → GeoResponse) :
  Forall (λ p, p ∈ map pincode cached_df) (omap CPA_PIN_CODE address_csv) →
  ∃ trace,
    main (Some cached_df) address_csv "A" confirm gmaps
    = (Some cached_df, trace)
    ∧ geocoded trace = []
    ∧ ∀ confirm' gmaps', ∃ trace',
        main (main (Some cached_df) address_csv "A" confirm gmaps).1
          address_csv "A" confirm' gmaps'
        = (Some cached_df, trace')
        ∧ geocoded trace' = [].
Proof.
  intros Hall.
  assert (∀ confirm gmaps,
    main (Some cached_df) address_csv "A" confirm gmaps
    = (Some cached_df,
       [ECacheExists;
        EFoundCached (size (list_to_set (map pincode cached_df) : gset Z));
        EFoundUnique (length (unique_pincodes address_csv));
        ENeedToFetch 0; EAllCached])) as Hrun.
  { intros confirm0 gmaps0. unfold main.
    rewrite decide_False by done. rewrite decide_True by done.
    rewrite reconcile_nothing_to_fetch; [done|].
    apply filter_none, Forall_forall.
    intros p Hp%elem_of_unique_pincodes Hnot. apply Hnot.
    apply elem_of_list_to_set. rewrite Forall_forall in Hall. auto. }
  eexists. split; [apply Hrun|]. split; [done|].
  intros confirm' gmaps'. rewrite Hrun. simpl.
  eexists. split; [apply Hrun|done].
Qed.

Lemma C4_witness :
  ∃ trace,
    main (Some sample_cache)
      [ {| CPA_PIN_CODE := Some 560001; CPA_ADDR_CITY := None; Year := None |};
        {| CPA_PIN_CODE := None; CPA_ADDR_CITY := None; Year := None |};
        {| CPA_PIN_CODE := Some 110001; CPA_ADDR_CITY := None; Year := None |} ]
      "A" "y" sample_gmaps
    = (Some sample_cache, trace)
    ∧ geocoded trace = [].
Proof.
  destruct (C4_append_idempotent sample_cache
    [ {| CPA_PIN_CODE := Some 560001; CPA_ADDR_CITY := None; Year := None |};
      {| CPA_PIN_CODE := None; CPA_ADDR_CITY := None; Year := None |};
      {| CPA_PIN_CODE := Some 110001; CPA_ADDR_CITY := None; Year := None |} ]
    "y" sample_gmaps) as (trace & Hrun & Hgeo & _).
  - apply (bool_decide_unpack _). by vm_compute.
  - exists trace. split; [exact Hrun|exact Hgeo].
Defined.

(** ** The fetch loop *)

Lemma adapter_trace gmaps p :
  let r := get_coordinates_for_pincode gmaps p in
  geocoded r.2 = [p]
  ∧ summary_counts r.2 = []
  ∧ (is_Some r.1 → failures r.2 = [])
  ∧ (¬ is_Some r.1 → failures r.2 = [p])
  ∧ announced r.2 = []
  ∧ successful_count r.2 = [].
Proof.
  unfold get_coordinates_for_pincode.
  destruct (gmaps p) as [[|first rest]|]; simpl.
  - repeat split. by intros [? ?].
  - destruct (location first) as [[lat lng]|]; simpl.
    + repeat split. intros []; eauto.
    + repeat split. by intros [? ?].
  - repeat split. by intros [? ?].
Qed.

Lemma fetch_loop_cons gmaps n i p todo :
  fetch_loop gmaps n i (p :: todo)
  = let r := get_coordinates_for_pincode gmaps p in
    let rest := fetch_loop gmaps n (S i) todo in
    (match r.1 with Some x => x :: rest.1 | None => rest.1 end,
     EFetching i n p :: r.2
       ++ match r.1 with
          | Some x => [EFetched (latitude x) (longitude x)]
          | None => []
          end
       ++ (if decide (i mod 10 = 0)%nat then [ESleep] else [])
       ++ rest.2).
Proof.
  simpl. destruct (get_coordinates_for_pincode gmaps p) as [r ev].
  by destruct (fetch_loop gmaps n (S i) todo) as [rs evs].
Qed.

Lemma fetch_loop_results gmaps n i todo :
  (fetch_loop gmaps n i todo).1 = successful_rows gmaps todo.
Proof.
  revert i. induction todo as [|p todo IH]; intros i; [done|].
  rewrite fetch_loop_cons. simpl. rewrite IH.
  by destruct (get_coordinates_for_pincode gmaps p).1.
Qed.

Lemma fetch_loop_trace gmaps n i todo :
  let ev := (fetch_loop gmaps n i todo).2 in
  geocoded ev = todo
  ∧ summary_counts ev = []
  ∧ failures ev = filter (λ p, ¬ resolved gmaps p) todo
  ∧ announced ev = []
  ∧ successful_count ev = [].
Proof.
  revert i. induction todo as [|p todo IH]; intros i; [done|].
  destruct (IH (S i)) as (Hg & Hs & Hf & Hn & Hc).
  destruct (adapter_trace gmaps p) as (Hg1 & Hs1 & Hf1 & Hf1' & Hn1 & Hc1).
  rewrite fetch_loop_cons. cbn zeta. cbn [snd].
  set (mid := match (get_coordinates_for_pincode gmaps p).1 with
              | Some x => [EFetched (latitude x) (longitude x)]
              | None => []
              end ++ if decide (i mod 10 = 0)%nat then [ESleep] else []).
  assert (geocoded mid = [] ∧ summary_counts mid = [] ∧ failures mid = []
          ∧ announced mid = [] ∧ successful_count mid = [])
    as (Hg2 & Hs2 & Hf2 & Hn2 & Hc2).
  { subst mid.
    by destruct (get_coordinates_for_pincode gmaps p).1, (decide _). }
  rewrite (app_assoc _ _ (fetch_loop gmaps n (S i) todo).2). fold mid.
  unfold geocoded, summary_counts, failures, announced, successful_count in *.
  simpl.
  rewrite !omap_app, Hg, Hs, Hf, Hn, Hc, Hg1, Hs1, Hn1, Hc1,
    Hg2, Hs2, Hf2, Hn2, Hc2.
  rewrite filter_cons. split; [done|]. split; [done|]. split.
  - unfold resolved at 1.
    destruct (decide (is_Some (get_coordinates_for_pincode gmaps p).1))
      as [Hr|Hr].
    + rewrite decide_False by tauto. by rewrite Hf1.
    + rewrite decide_True by done. by rewrite Hf1'.
  - done.
Qed.

Lemma successful_rows_length gmaps todo :
  length (successful_rows gmaps todo) = length (filter (resolved gmaps) todo).
Proof.
  unfold successful_rows.
  induction todo as [|p todo IH]; simpl; [done|].
  rewrite filter_cons.
  destruct (decide (resolved gmaps p)) as [[row Hrow]|Hno]; simpl.
  - rewrite Hrow. simpl. f_equal. exact IH.
  - destruct (get_coordinates_for_pincode gmaps p).1 as [row|] eqn:Hrow;
      [|exact IH].
    destruct Hno. unfold resolved. rewrite Hrow. eauto.
Qed.

Lemma successful_rows_spec gmaps todo row :
  row ∈ successful_rows gmaps todo ↔
  ∃ p, p ∈ todo ∧ (get_coordinates_for_pincode gmaps p).1 = Some row.
Proof. unfold successful_rows. apply list_elem_of_omap. Qed.

Lemma adapter_pincode gmaps p row :
  (get_coordinates_for_pincode gmaps p).1 = Some row → pincode row = p.
Proof.
  unfold get_coordinates_for_pincode.
  destruct (gmaps p) as [[|first rest]|]; simpl; [done| |done].
  destruct (location first) as [[lat lng]|]; simpl; [|done].
  by intros [= <-].
Qed.

(** ** The cache keeps one row per pincode *)

Lemma successful_rows_pincodes gmaps todo :
  map pincode (successful_rows gmaps todo) = filter (resolved gmaps) todo.
Proof.
  unfold successful_rows.
  induction todo as [|p todo IH]; [done|].
  rewrite filter_cons. simpl.
  destruct (decide (resolved gmaps p)) as [[row Hrow]|Hno].
  - rewrite Hrow. simpl. rewrite (adapter_pincode _ _ _ Hrow). f_equal. exact IH.
  - destruct (get_coordinates_for_pincode gmaps p).1 as [row|] eqn:Hrow;
      [|exact IH].
    destruct Hno. unfold resolved. rewrite Hrow. eauto.
Qed.

Lemma reconcile_file cache_file cached address_csv confirm gmaps :
  let todo := filter (λ p, p ∉ cached) (unique_pincodes address_csv) in
  (reconcile cache_file cached address_csv confirm gmaps).1 = cache_file
  ∨ (reconcile cache_file cached address_csv confirm gmaps).1
    = Some (if decide (cached ≠ ∅)
            then default [] cache_file ++ successful_rows gmaps todo
            else successful_rows gmaps todo).
Proof.
  intros todo. destruct (decide (todo = [])) as [Hnil|Hne].
  - left. by rewrite reconcile_nothing_to_fetch.
  - destruct (decide (confirm = "y")) as [->|Hno].
    + right. rewrite (reconcile_fetches _ _ _ _ todo eq_refl Hne).
      cbn [fst]. by rewrite fetch_loop_results.
    + left. by rewrite (reconcile_cancelled _ _ _ _ _ todo eq_refl Hne Hno).
Qed.

(** The reconciler keeps the cache at one row per pincode. *)
Lemma main_one_row_per_pincode cache_file address_csv response confirm gmaps after :
  (∀ cached_df, cache_file = Some cached_df → NoDup (map pincode cached_df)) →
  (main cache_file address_csv response confirm gmaps).1 = Some after →
  NoDup (map pincode after).
Proof.
  intros Hinv Hafter.
  destruct (decide (cache_file = None ∨ response ≠ "U")) as [Hmode|Hmode].
  - destruct (main_reconcile cache_file address_csv response confirm gmaps Hmode)
      as (pre & Hmain & _).
    rewrite Hmain in Hafter. cbn [fst] in Hafter. clear Hmain pre.
    set (cached := cached_pincodes_of cache_file response) in *.
    set (todo := filter (λ p, p ∉ cached) (unique_pincodes address_csv)).
    assert (NoDup (filter (resolved gmaps) todo)) as Hnew
      by (apply NoDup_filter, NoDup_filter, NoDup_unique_pincodes).
    destruct (reconcile_file cache_file cached address_csv confirm gmaps)
      as [Hsame|Hnewfile]; rewrite Hafter in *.
    + by apply Hinv.
    + fold todo in Hnewfile. injection Hnewfile as ->.
      destruct (decide (cached ≠ ∅)) as [Hcached|_];
        [|by rewrite successful_rows_pincodes].
      rewrite map_app, successful_rows_pincodes.
      subst cached. unfold cached_pincodes_of in *.
      destruct cache_file as [cached_df|]; [|done].
      destruct (decide (response = "A")); [|done].
      simpl. apply NoDup_app. split; [by apply Hinv|]. split; [|done].
      intros p Hp [_ Hin]%list_elem_of_filter.
      apply list_elem_of_filter in Hin as [Hnot _].
      apply Hnot. by apply elem_of_list_to_set.
  - destruct cache_file as [cached_df|]; [|tauto].
    destruct (decide (response = "U")) as [->|?]; [|tauto].
    unfold main in Hafter. rewrite decide_True in Hafter by done.
    simpl in Hafter. injection Hafter as <-. by apply Hinv.
Qed.

Lemma cached_pincodes_of_refetch cache_file response :
  response ≠ "A" → cached_pincodes_of cache_file response = ∅.
Proof.
  intros Hr. unfold cached_pincodes_of. destruct cache_file; [|done].
  by rewrite decide_False.
Qed.

Lemma pincodes_to_fetch_refetch cache_file response address_csv :
  response ≠ "A" →
  pincodes_to_fetch cache_file response address_csv
  = unique_pincodes address_csv.
Proof.
  intros Hr. unfold pincodes_to_fetch.
  rewrite cached_pincodes_of_refetch by done.
  apply filter_all, Forall_forall. set_solver.
Qed.

(** C9, as stated, fails: a refetch-all run over address data without any
    pincode returns at the check "All pincodes already cached!" and leaves
    the old cache file in place, although the run produced no resolution
    and none of the cached pincodes is observed. *)
Lemma C9_refetch_counterexample :
  (main (Some sample_cache) unparseable_address "R" "y" sample_gmaps).1
    = Some sample_cache
  ∧ unique_pincodes unparseable_address = []
  ∧ successful_rows sample_gmaps (unique_pincodes unparseable_address) = []
  ∧ (main (Some sample_cache) unparseable_address "R" "y" sample_gmaps).1
    ≠ Some (successful_rows sample_gmaps (unique_pincodes unparseable_address)).
Proof. by vm_compute. Qed.

(** C9, amended.  In refetch-all mode (any answer other than U and A),
    when the cleaned address data holds at least one pincode and the
    operator confirms the batch, the cache file after the run holds
    exactly the rows of this run's successful resolutions, in ascending
    pincode order: each row belongs to an observed pincode and is what the
    adapter returned for it, so an old entry whose pincode is not observed
    or whose fetch fails is gone.  When the address data holds no pincode or
    the operator declines, the cache file is left as it was. *)
Theorem C9_refetch_rebuilds (cache_file : option (list CacheRow))
    (address_csv : list AddressRow) (response confirm : string)
    (gmaps : Z → GeoResponse) :
  response ≠ "U" → response ≠ "A" →
  let todo := unique_pincodes address_csv in
  let after := (main cache_file address_csv response confirm gmaps).1 in
  (todo ≠ [] → confirm = "y" →
     after = Some (successful_rows gmaps todo)
     ∧ Forall (λ row, pincode row ∈ todo
                      ∧ (get_coordinates_for_pincode gmaps (pincode row)).1
                        = Some row)
         (successful_rows gmaps todo))
  ∧ (todo = [] ∨ confirm ≠ "y" → after = cache_file).
Proof.
  intros HU HA todo after.
  destruct (main_reconcile cache_file address_csv response confirm gmaps)
    as (pre & Hmain & _); [by right|].
  subst after. rewrite Hmain. cbn [fst]. clear Hmain pre.
  pose proof (pincodes_to_fetch_refetch cache_file response address_csv HA)
    as Hfilter.
  unfold pincodes_to_fetch in Hfilter. fold todo in Hfilter.
  split.
  - intros Hne ->.
    rewrite (reconcile_fetches _ _ _ _ todo Hfilter Hne).
    cbn [fst]. rewrite cached_pincodes_of_refetch by done.
    rewrite decide_False by (intros Hnot; by apply Hnot).
    rewrite fetch_loop_results. split; [done|].
    apply Forall_forall. intros row (p & Hp & Hrow)%successful_rows_spec.
    by rewrite (adapter_pincode _ _ _ Hrow).
  - intros [Hnil|Hno].
    + by rewrite reconcile_nothing_to_fetch
        by (etrans; [exact Hfilter|exact Hnil]).
    + destruct (decide (todo = [])) as [Hnil|Hne].
      * by rewrite reconcile_nothing_to_fetch
          by (etrans; [exact Hfilter|exact Hnil]).
      * by rewrite (reconcile_cancelled _ _ _ _ _ todo Hfilter Hne Hno).
Qed.

Lemma C9_witness :
  (main (Some sample_cache) sample_address "R" "y" sample_gmaps).1
  = Some (successful_rows sample_gmaps (unique_pincodes sample_address)).
Proof.
  apply (C9_refetch_rebuilds (Some sample_cache) sample_address "R" "y"
           sample_gmaps).
  - done.
  - done.
  - by vm_compute.
  - reflexivity.
Defined.

(** C6, as stated, fails: on a first run over three pincodes of which two
    resolve and one is skipped, the block under "Summary:" prints the
    number of successes twice (as "processed" and as "successful"), so the
    number attempted is not in it, and no line of the whole output prints
    the number skipped. *)
Lemma C6_counts_counterexample :
  let trace := (main None three_pincodes "" "y" sample_gmaps).2 in
  let todo := pincodes_to_fetch None "" three_pincodes in
  length todo = 3%nat
  ∧ length (filter (resolved sample_gmaps) todo) = 2%nat
  ∧ length (filter (λ p, ¬ resolved sample_gmaps p) todo) = 1%nat
  ∧ summary_counts trace = [2%nat; 2%nat]
  ∧ (3%nat ∉ summary_counts trace)
  ∧ (1%nat ∉ reported_counts trace).
Proof.
  assert (summary_counts (main None three_pincodes "" "y" sample_gmaps).2
          = [2; 2]%nat) as Hsum by (by vm_compute).
  assert (reported_counts (main None three_pincodes "" "y" sample_gmaps).2
          = [3; 3; 3; 2; 2; 2; 2]%nat) as Hrep by (by vm_compute).
  cbn zeta. rewrite Hsum, Hrep.
  split; [by vm_compute|]. split; [by vm_compute|]. split; [by vm_compute|].
  split; [done|]. split; apply (bool_decide_unpack _); by vm_compute.
Qed.

(** C6, amended.  In every run that performs fetches, the reconciler
    announces the number of pincodes to fetch before the batch, asks the
    provider about exactly these pincodes, once each and in order, prints
    one failure line for each pincode that does not resolve, and reports
    the number of successful resolutions on the line "Successful"; the
    number skipped is the difference of the two and is not printed.  All
    are functions of the list of pincodes to fetch and of which of them
    resolve. *)
Theorem C6_reported_counts (cache_file : option (list CacheRow))
    (address_csv : list AddressRow) (response : string)
    (gmaps : Z → GeoResponse) :
  cache_file = None ∨ response ≠ "U" →
  let todo := pincodes_to_fetch cache_file response address_csv in
  let succeeded := length (filter (resolved gmaps) todo) in
  let trace := (main cache_file address_csv response "y" gmaps).2 in
  todo ≠ [] →
  announced trace = [length todo]
  ∧ geocoded trace = todo
  ∧ failures trace = filter (λ p, ¬ resolved gmaps p) todo
  ∧ successful_count trace = [succeeded]
  ∧ length todo = (succeeded + length (failures trace))%nat.
Proof.
  intros Hmode todo succeeded trace Hne.
  destruct (main_reconcile cache_file address_csv response "y" gmaps Hmode)
    as (pre & Hmain & Hg0 & _ & Hf0 & Hn0 & Hc0).
  assert (trace
    = pre ++ [EFoundUnique (length (unique_pincodes address_csv));
              ENeedToFetch (length todo); EWillMake (length todo)]
          ++ (fetch_loop gmaps (length todo) 1 todo).2
          ++ [ESaved (length (successful_rows gmaps todo))
                (length (if decide (cached_pincodes_of cache_file response ≠ ∅)
                         then default [] cache_file ++ successful_rows gmaps todo
                         else successful_rows gmaps todo));
              ESummaryProcessed (length (successful_rows gmaps todo));
              ESummarySuccessful (length (successful_rows gmaps todo))])
    as Htrace.
  { subst trace. rewrite Hmain. cbn [snd]. f_equal.
    rewrite (reconcile_fetches _ _ _ _ todo eq_refl Hne). cbn [snd].
    by rewrite fetch_loop_results. }
  destruct (fetch_loop_trace gmaps (length todo) 1 todo)
    as (Hg & _ & Hf & Hn & Hc).
  assert (failures trace = filter (λ p, ¬ resolved gmaps p) todo) as Hfail.
  { rewrite Htrace. unfold failures in *.
    rewrite !omap_app, Hf0, Hf. simpl. by rewrite app_nil_r. }
  split; [|split; [|split; [exact Hfail|split]]].
  - rewrite Htrace. unfold announced in *.
    rewrite !omap_app, Hn0, Hn. done.
  - rewrite Htrace. unfold geocoded in *.
    rewrite !omap_app, Hg0, Hg. simpl. by rewrite app_nil_r.
  - rewrite Htrace. unfold successful_count in *.
    rewrite !omap_app, Hc0, Hc. simpl.
    by rewrite successful_rows_length.
  - rewrite Hfail. subst succeeded. clear.
    induction todo as [|p todo IH]; [done|].
    rewrite !filter_cons. destruct (decide (resolved gmaps p)) as [Hr|Hr].
    + rewrite decide_False by tauto. simpl. lia.
    + rewrite decide_True by done. simpl. lia.
Qed.

Lemma C6_witness :
  announced (main None three_pincodes "" "y" sample_gmaps).2 = [3%nat]
  ∧ geocoded (main None three_pincodes "" "y" sample_gmaps).2
    = [110001; 560001; 600001]
  ∧ failures (main None three_pincodes "" "y" sample_gmaps).2 = [560001]
  ∧ successful_count (main None three_pincodes "" "y" sample_gmaps).2
    = [2%nat].
Proof.
  destruct (C6_reported_counts None three_pincodes "" sample_gmaps)
    as (Ha & Hg & Hf & Hs & _).
  - by left.
  - by vm_compute.
  - split; [exact Ha|]. split; [exact Hg|]. split; [exact Hf|exact Hs].
Defined.

(* ================================================================== *)
(** ** Colour thresholds *)

(** In percentage mode a marker and a cluster are coloured by the same
    thresholds. *)
Lemma percentage_tiers_agree (row : SummaryRow) (markers : list MarkerOptions) :
  (cluster_sumPct markers == percentage row)%Q →
  cluster_color true markers = marker_color true row.
Proof.
  intros Heq. unfold cluster_color, marker_color.
  repeat match goal with
         | |- context [decide (?a <= ?b)%Q] => destruct (decide (a <= b)%Q)
         end;
    try done; rewrite Heq in *; done.
Qed.

(** In count mode they agree except at exactly 100. *)
Lemma count_tiers_agree (row : SummaryRow) (markers : list MarkerOptions) :
  cluster_sumCount markers = customer_count row →
  customer_count row ≠ 100%nat →
  cluster_color false markers = marker_color false row.
Proof.
  intros Heq Hne. unfold cluster_color, marker_color. rewrite Heq.
  repeat destruct (decide _); try done; lia.
Qed.

(** C7.  The count thresholds of markers and clusters differ at exactly
    100 customers: the marker of a pincode with 100 customers is light
    blue, while a cluster whose counts add up to 100 is light green, the
    colour the legend (headed "Individual Pincodes & Clusters") gives to
    100. *)
Theorem C7_count_tier_at_100 :
  marker_color false hundred_customers = "lightblue"
  ∧ cluster_sumCount [marker_options hundred_customers] = 100%nat
  ∧ cluster_color false [marker_options hundred_customers] = "lightgreen"
  ∧ cluster_sumCount sixty_and_forty = 100%nat
  ∧ cluster_color false sixty_and_forty = "lightgreen"
  ∧ legend_count_color (customer_count hundred_customers) = "lightgreen".
Proof. by vm_compute. Qed.

(* ================================================================== *)
(** * Further properties of app.py *)

(** ** What the join keeps and what it drops *)

Lemma merge_left_row_elem pincode_coords pin a c :
  c ∈ pincode_coords → pincode c = pin →
  {| m_PIN_CODE := pin; m_ADDR_CITY := CPA_ADDR_CITY a;
     m_Year := Year a; m_city := city c;
     Latitude := latitude c; Longitude := longitude c;
     StateName := state c |} ∈ merge_left_row pincode_coords pin a.
Proof.
  intros Hc Hpin. unfold merge_left_row.
  assert (c ∈ filter (λ c, pincode c = pin) pincode_coords) as Hin
    by (by apply list_elem_of_filter).
  destruct (filter (λ c, pincode c = pin) pincode_coords) as [|c0 cs] eqn:Hf;
    [by apply elem_of_nil in Hin|].
  apply list_elem_of_fmap. by exists c.
Qed.

Lemma load_data_elem address_df pincode_coords a c pin :
  a ∈ address_df → CPA_PIN_CODE a = Some pin →
  c ∈ pincode_coords → pincode c = pin →
  is_Some (latitude c) → is_Some (longitude c) →
  fill_city {| m_PIN_CODE := pin; m_ADDR_CITY := CPA_ADDR_CITY a;
               m_Year := Year a; m_city := city c;
               Latitude := latitude c; Longitude := longitude c;
               StateName := state c |}
  ∈ load_data address_df pincode_coords.
Proof.
  intros Ha Hpin Hc Hcp Hlat Hlng. unfold load_data.
  apply list_elem_of_filter. split; [by apply has_coordinates_true|].
  apply list_elem_of_fmap. eexists. split; [done|].
  unfold merge_left. apply list_elem_of_In, in_flat_map.
  exists a. split; [by apply list_elem_of_In|].
  rewrite Hpin. apply list_elem_of_In. by apply merge_left_row_elem.
Qed.

Lemma view_row_joined address_df pincode_coords selected_year r :
  r ∈ filtered_df (load_data address_df pincode_coords) selected_year →
  ∃ a c, a ∈ address_df ∧ c ∈ pincode_coords
    ∧ CPA_PIN_CODE a = Some (m_PIN_CODE r) ∧ pincode c = m_PIN_CODE r
    ∧ in_view selected_year a
    ∧ m_ADDR_CITY r = match city c with
                      | Some x => Some x
                      | None => CPA_ADDR_CITY a
                      end
    ∧ StateName r = state c
    ∧ Latitude r = latitude c ∧ Longitude r = longitude c
    ∧ is_Some (latitude c) ∧ is_Some (longitude c).
Proof.
  intros Hr.
  pose proof (load_data_coordinates address_df pincode_coords selected_year)
    as Hall.
  rewrite Forall_forall in Hall. destruct (Hall r Hr) as [Hlat Hlng].
  assert (r ∈ load_data address_df pincode_coords
          ∧ match selected_year with Some y => m_Year r = Some y | None => True end)
    as [Hin Hyear].
  { destruct selected_year; [|done].
    by apply list_elem_of_filter in Hr as [? ?]. }
  unfold load_data in Hin. apply list_elem_of_filter in Hin as [_ Hin].
  apply list_elem_of_fmap in Hin as (r0 & -> & Hin).
  unfold merge_left in Hin. apply list_elem_of_In, in_flat_map in Hin.
  destruct Hin as (a & Ha%list_elem_of_In & Hr0%list_elem_of_In).
  destruct (CPA_PIN_CODE a) as [pin|] eqn:Hpin;
    [|by apply elem_of_nil in Hr0].
  unfold merge_left_row in Hr0.
  destruct (filter (λ c, pincode c = pin) pincode_coords) as [|c0 cs] eqn:Hf.
  - apply list_elem_of_singleton in Hr0. subst r0. simpl in Hlat.
    by destruct Hlat.
  - apply list_elem_of_fmap in Hr0 as (c & -> & Hc).
    rewrite <- Hf in Hc. apply list_elem_of_filter in Hc as [Hcp Hc].
    exists a, c. simpl in *. rewrite Hpin, Hcp.
    repeat split; try done.
    unfold fillna. by destruct (city c).
Qed.

(** X1.  A pincode occurs in a view exactly when some address record of
    the view carries it (in parseable form) and the cache has a row for it
    with both coordinates: records are left out for an unparseable pincode,
    for a pincode without coordinates in the cache, or by the year filter,
    and for nothing else. *)
Theorem X1_view_pincodes (address_df : list AddressRow)
    (pincode_coords : list CacheRow) (selected_year : option Z) (p : Z) :
  p ∈ map m_PIN_CODE (filtered_df (load_data address_df pincode_coords)
                        selected_year)
  ↔ ∃ a, a ∈ address_df ∧ in_view selected_year a
         ∧ CPA_PIN_CODE a = Some p ∧ resolves pincode_coords p.
Proof.
  split.
  - intros (r & -> & Hr)%list_elem_of_fmap.
    destruct (view_row_joined _ _ _ _ Hr)
      as (a & c & Ha & Hc & Hpin & Hcp & Hview & _ & _ & _ & _ & Hlat & Hlng).
    exists a. repeat split; try done.
    apply Exists_exists. by exists c.
  - intros (a & Ha & Hview & Hpin & (c & Hc & Hcp & Hlat & Hlng)%Exists_exists).
    assert (fill_city
              {| m_PIN_CODE := p; m_ADDR_CITY := CPA_ADDR_CITY a;
                 m_Year := Year a; m_city := city c;
                 Latitude := latitude c; Longitude := longitude c;
                 StateName := state c |}
            ∈ load_data address_df pincode_coords) as Hin
      by (by eapply load_data_elem).
    apply list_elem_of_fmap. eexists. split; [|].
    2:{ destruct selected_year as [y|]; [|exact Hin].
        simpl. apply list_elem_of_filter. split; [|exact Hin]. exact Hview. }
    done.
Qed.

(** X2.  Every row of a view is one cleaned address record joined with one
    cache row of the same pincode: its coordinates and state are the cache
    row's, and its city is the cache row's city, or the record's own city
    when the cache row has none. *)
Theorem X2_view_rows_joined (address_df : list AddressRow)
    (pincode_coords : list CacheRow) (selected_year : option Z) :
  Forall (λ r,
    ∃ a c, a ∈ address_df ∧ c ∈ pincode_coords
      ∧ CPA_PIN_CODE a = Some (m_PIN_CODE r) ∧ pincode c = m_PIN_CODE r
      ∧ in_view selected_year a
      ∧ m_ADDR_CITY r = match city c with
                        | Some x => Some x
                        | None => CPA_ADDR_CITY a
                        end
      ∧ StateName r = state c
      ∧ Latitude r = latitude c ∧ Longitude r = longitude c
      ∧ is_Some (latitude c) ∧ is_Some (longitude c))
    (filtered_df (load_data address_df pincode_coords) selected_year).
Proof. apply Forall_forall. intros r Hr. by apply view_row_joined. Qed.

(** ** The most common city and state *)

Lemma elem_of_mode x s :
  s ∈ mode x ↔
  s ∈ dropna_values x
  ∧ occurrences s (dropna_values x)
    = max_list (map (λ t, occurrences t (dropna_values x)) (dropna_values x)).
Proof.
  unfold mode. rewrite merge_sort_Permutation, list_elem_of_filter.
  rewrite elem_of_unique. tauto.
Qed.

Lemma mode_most_frequent x s t :
  s ∈ mode x →
  (occurrences t (dropna_values x) ≤ occurrences s (dropna_values x))%nat.
Proof.
  intros [Hs ->]%elem_of_mode.
  destruct (decide (t ∈ dropna_values x)) as [Ht|Ht].
  - apply max_list_elem_of_le, list_elem_of_fmap. eauto.
  - unfold occurrences at 1. rewrite filter_none; [simpl; lia|].
    apply Forall_forall. by intros ? ? ->.
Qed.

Lemma mode_nonempty x : dropna_values x ≠ [] → mode x ≠ [].
Proof.
  intros Hv.
  set (v := dropna_values x) in *.
  assert (map (λ t, occurrences t v) v ≠ []) as Hne by (by destruct v).
  apply max_list_elem_of, list_elem_of_fmap in Hne as (s & Htop & Hs).
  intros Hnil.
  assert (s ∈ mode x) as Hin by (by apply elem_of_mode).
  rewrite Hnil in Hin. by apply elem_of_nil in Hin.
Qed.

Lemma elem_of_dropna_values {A} (x : list (option A)) a :
  a ∈ dropna_values x ↔ Some a ∈ x.
Proof.
  unfold dropna_values. rewrite list_elem_of_omap. split.
  - by intros ([b|] & Hb & [= ->]).
  - intros Ha. by exists (Some a).
Qed.

(** The three outcomes of the aggregation lambda. *)
Lemma most_common_cases x :
  match most_common x with
  | Ok (Some s) =>
      Some s ∈ x
      ∧ ∀ t, (occurrences t (dropna_values x)
              ≤ occurrences s (dropna_values x))%nat
  | Ok None => x ≠ [] ∧ Forall (λ v, v = None) x
  | Raise e => x = [] ∧ e = IndexError
  end.
Proof.
  unfold most_common. destruct (mode x) as [|s ss] eqn:Hmode.
  - assert (dropna_values x = []) as Hnone.
    { destruct (dropna_values x) eqn:Hv; [done|].
      destruct (mode_nonempty x); [by rewrite Hv|done]. }
    assert (Forall (λ v, v = None) x) as Hall.
    { apply Forall_forall. intros [a|] Ha; [|done].
      apply elem_of_dropna_values in Ha. rewrite Hnone in Ha.
      by apply elem_of_nil in Ha. }
    destruct x as [|v x]; [done|].
    apply Forall_cons in Hall as Hv. destruct Hv as [-> _]. done.
  - assert (s ∈ mode x) as Hs by (rewrite Hmode; left).
    split.
    + apply elem_of_dropna_values. by apply elem_of_mode in Hs as [? _].
    + intros t. by apply mode_most_frequent.
Qed.


(** The lambda raises on an empty column and on nothing else. *)
Lemma most_common_raises x : (∃ e, most_common x = Raise e) ↔ x = [].
Proof.
  pose proof (most_common_cases x) as Hcases. split.
  - intros [e He]. rewrite He in Hcases. tauto.
  - intros ->. by exists IndexError.
Qed.

(** ** The rows of the summary *)

(** X4.  The summary holds one row for each pincode of the view and no
    other row; the count of a row is the number of records of the view with
    that pincode, which is at least one. *)
Theorem X4_summary_rows `{SortValues}
    (address_df : list AddressRow) (pincode_coords : list CacheRow)
    (selected_year : option Z) :
  let df := filtered_df (load_data address_df pincode_coords) selected_year in
  ∃ summaries,
    dashboard address_df pincode_coords selected_year = Ok summaries
    ∧ NoDup (map s_PIN_CODE summaries)
    ∧ (∀ p, p ∈ map s_PIN_CODE summaries ↔ p ∈ map m_PIN_CODE df)
    ∧ length summaries = length (unique (map m_PIN_CODE df))
    ∧ Forall (λ s,
        customer_count s
        = length (filter (λ r, m_PIN_CODE r = s_PIN_CODE s) df)
        ∧ (0 < customer_count s)%nat) summaries.
Proof.
  intros df. unfold dashboard. fold df.
  eexists. split; [apply pincode_summary_spec|].
  assert (map s_PIN_CODE (map (summary_of df) (group_keys df)) = group_keys df)
    as Hkeys.
  { rewrite map_map. simpl. apply map_id. }
  split; [|split; [|split]].
  - rewrite sort_values_Permutation, Hkeys. apply NoDup_group_keys.
  - intros p. rewrite sort_values_Permutation, Hkeys.
    apply elem_of_group_keys.
  - rewrite sort_values_Permutation, length_map. unfold group_keys.
    by rewrite merge_sort_Permutation.
  - rewrite sort_values_Permutation.
    apply Forall_forall. intros s (k & -> & Hk)%list_elem_of_fmap. simpl.
    split; [done|]. apply group_nonempty in Hk.
    fold (group df k). destruct (group df k); [done|simpl; lia].
Qed.

(** X5.  The percentage of every summary row is its count divided by the
    sum of all counts of the summary, times 100; it is above 0 and at most
    100. *)
Theorem X5_percentage_range `{SortValues}
    (address_df : list AddressRow) (pincode_coords : list CacheRow)
    (selected_year : option Z) :
  ∃ summaries,
    dashboard address_df pincode_coords selected_year = Ok summaries
    ∧ Forall (λ s,
        (percentage s
         == count_to_Q (customer_count s)
            / count_to_Q (sum_list_with customer_count summaries) * 100)%Q
        ∧ (0 < percentage s)%Q ∧ (percentage s <= 100)%Q) summaries.
Proof.
  unfold dashboard.
  set (df := filtered_df (load_data address_df pincode_coords) selected_year).
  eexists. split; [apply pincode_summary_spec|].
  assert (sum_list_with customer_count
            (sort_values (map (summary_of df) (group_keys df))) = length df)
    as ->.
  { rewrite sort_values_Permutation, sum_list_with_map. simpl.
    apply sum_counts_group_keys. }
  rewrite sort_values_Permutation.
  apply Forall_forall. intros s (k & -> & Hk)%list_elem_of_fmap. simpl.
  split; [reflexivity|].
  assert (0 < length (group df k) ≤ length df)%nat as [Hpos Hle].
  { split; [|apply length_filter].
    apply group_nonempty in Hk. destruct (group df k); [done|simpl; lia]. }
  assert (0 < count_to_Q (length (group df k)))%Q as Hc
    by (unfold count_to_Q, Qlt; simpl; lia).
  assert (0 < count_to_Q (length df))%Q as Ht
    by (unfold count_to_Q, Qlt; simpl; lia).
  assert (count_to_Q (length (group df k)) <= count_to_Q (length df))%Q as Hct
    by (unfold count_to_Q, Qle; simpl; lia).
  split.
  - apply Qmult_lt_0_compat; [|done].
    apply Qlt_shift_div_l; [done|]. by rewrite Qmult_0_l.
  - apply (Qle_trans _ (1 * 100)%Q); [|unfold Qle; simpl; lia].
    apply Qmult_le_compat_r; [|done].
    apply Qle_shift_div_r; [done|]. by rewrite Qmult_1_l.
Qed.

(** ** Maximum and the table of top locations *)

Lemma max_list_descending (l : list SummaryRow) :
  StronglySorted count_desc l →
  max_at_one_pincode l = customer_count <$> head l.
Proof.
  unfold max_at_one_pincode, series_max.
  destruct 1 as [|a l Hs Hall]; [done|]. simpl. f_equal.
  rewrite Forall_forall in Hall.
  assert (max_list (map customer_count l) ≤ customer_count a)%nat; [|lia].
  clear Hs. induction l as [|b l IH]; simpl; [lia|].
  pose proof (Hall b ltac:(left)) as Hb. unfold count_desc in Hb.
  assert (max_list (map customer_count l) ≤ customer_count a)%nat
    by (apply IH; intros c Hc; apply Hall; by right).
  lia.
Qed.

Lemma dashboard_descending `{SortValues} address_df pincode_coords y :
  ∃ summaries,
    dashboard address_df pincode_coords y = Ok summaries
    ∧ StronglySorted count_desc summaries.
Proof.
  unfold dashboard. eexists. split; [apply pincode_summary_spec|].
  apply Sorted_StronglySorted; [apply _|apply sort_values_Sorted].
Qed.

(** X6.  The metric "Max at One Pincode" is the count of the first row of
    the summary (and is missing for an empty summary); the table of top
    locations shows the first twenty rows, and no row left out of it has
    more customers than a row shown in it. *)
Theorem X6_top_locations `{SortValues}
    (address_df : list AddressRow) (pincode_coords : list CacheRow)
    (selected_year : option Z) :
  ∃ summaries,
    dashboard address_df pincode_coords selected_year = Ok summaries
    ∧ max_at_one_pincode summaries = customer_count <$> head summaries
    ∧ length (top_locations summaries) = (length summaries `min` 20)%nat
    ∧ Forall (λ shown,
        Forall (λ hidden, (customer_count hidden ≤ customer_count shown)%nat)
          (drop 20 summaries)) (top_locations summaries).
Proof.
  destruct (dashboard_descending address_df pincode_coords selected_year)
    as (summaries & Hrun & Hsorted).
  exists summaries. split; [done|].
  split; [by apply max_list_descending|].
  split; [unfold top_locations; rewrite length_take; lia|].
  unfold top_locations.
  rewrite <- (take_drop 20 summaries) in Hsorted.
  apply Forall_forall. intros shown Hshown.
  apply Forall_forall. intros hidden Hhidden.
  by apply (StronglySorted_app_1_elem_of _ _ _ _ _ Hsorted).
Qed.

(** ** The year selector *)

Lemma elem_of_years df y : y ∈ years df ↔ Some y ∈ map m_Year df.
Proof.
  unfold years. rewrite merge_sort_Permutation, elem_of_unique.
  rewrite list_elem_of_omap, list_elem_of_fmap. split.
  - intros (r & Hr & Hy). eauto.
  - intros (r & Hy & Hr). eauto.
Qed.

(** X7.  The years offered by the selector are in strictly ascending
    order, and a year is offered exactly when the view it selects is not
    empty: choosing an offered year never gives an empty dashboard. *)
Theorem X7_years_offered (df : list MergedRow) :
  StronglySorted Z.lt (years df)
  ∧ ∀ y, y ∈ years df ↔ filtered_df df (Some y) ≠ [].
Proof.
  split.
  - apply StronglySorted_le_lt.
    + unfold years. apply StronglySorted_merge_sort; apply _.
    + unfold years. rewrite merge_sort_Permutation. apply NoDup_unique.
  - intros y. rewrite elem_of_years, list_elem_of_fmap. simpl. split.
    + intros (r & Hy & Hr) Hnil.
      assert (r ∈ filter (λ r, m_Year r = Some y) df) as Hin
        by (by apply list_elem_of_filter).
      rewrite Hnil in Hin. by apply elem_of_nil in Hin.
    + intros Hne.
      destruct (filter (λ r, m_Year r = Some y) df) as [|r l] eqn:Hf; [done|].
      assert (r ∈ filter (λ r, m_Year r = Some y) df) as Hin
        by (rewrite Hf; left).
      apply list_elem_of_filter in Hin as [? ?]. eauto.
Qed.

Lemma year_view_length df y :
  length (filtered_df df (Some y))
  = length (filter (λ z, z = y) (omap m_Year df)).
Proof.
  simpl. induction df as [|r df IH]; [done|].
  rewrite filter_cons. simpl.
  destruct (m_Year r) as [z|] eqn:Hz.
  - rewrite filter_cons.
    destruct (decide (Some z = Some y)) as [[= ->]|Hne].
    + rewrite decide_True by done. simpl. by rewrite IH.
    + rewrite decide_False by congruence. done.
  - rewrite decide_False by done. done.
Qed.

(** X8.  The views of the offered years and the records without a
    registration year split the table 'All Years': their sizes add up to
    its size, so a record with an unparseable date is counted under 'All
    Years' and under no year. *)
Theorem X8_years_partition (df : list MergedRow) :
  length (filtered_df df None)
  = (sum_list_with (λ y, length (filtered_df df (Some y))) (years df)
     + length (filter (λ r, m_Year r = None) df))%nat.
Proof.
  assert (sum_list_with (λ y, length (filtered_df df (Some y))) (years df)
          = length (omap m_Year df)) as ->.
  { transitivity (sum_list_with
                    (λ y, length (filter (λ z, id z = y) (omap m_Year df)))
                    (years df)).
    { induction (years df) as [|y ys IH]; [done|].
      cbn [sum_list_with]. f_equal; [apply year_view_length|exact IH]. }
    apply sum_group_sizes.
    - unfold years. rewrite merge_sort_Permutation. apply NoDup_unique.
    - apply Forall_forall. intros z Hz. unfold years.
      by rewrite merge_sort_Permutation, elem_of_unique. }
  simpl. induction df as [|r df IH]; [done|].
  rewrite filter_cons.
  destruct (decide (m_Year r = None)) as [Hnone|Hsome]; simpl.
  - rewrite Hnone. simpl.
    change (list_omap _ _ m_Year df) with (omap m_Year df). lia.
  - destruct (m_Year r); [|done]. simpl.
    change (list_omap _ _ m_Year df) with (omap m_Year df). lia.
Qed.

(** ** The summary over a cache with one row per pincode *)

Lemma NoDup_key_inj {B} (key : B → Z) (l : list B) b1 b2 :
  NoDup (map key l) → b1 ∈ l → b2 ∈ l → key b1 = key b2 → b1 = b2.
Proof.
  induction l as [|b l IH]; simpl; [by intros _ ?%elem_of_nil|].
  intros [Hb Hnd]%NoDup_cons [->|H1]%elem_of_cons [->|H2]%elem_of_cons Hkey;
    [done| | |by apply IH].
  - destruct Hb. rewrite Hkey. apply list_elem_of_fmap. eauto.
  - destruct Hb. rewrite <- Hkey. apply list_elem_of_fmap. eauto.
Qed.

Lemma constant_column {A B} (f : A → B) (l : list A) (b : B) :
  Forall (λ a, f a = b) l → map f l = replicate (length l) b.
Proof. induction 1 as [|a l Ha _ IH]; simpl; [done|]. by rewrite Ha, IH. Qed.

Lemma Permutation_replicate {A} (l : list A) n (a : A) :
  l ≡ₚ replicate n a → l = replicate n a.
Proof.
  intros Hperm.
  assert (length l = n) as <-
    by (by rewrite Hperm, length_replicate).
  symmetry. apply replicate_as_Forall. split; [done|].
  apply Forall_forall. intros b Hb. rewrite Hperm in Hb.
  by apply elem_of_replicate_inv in Hb.
Qed.

(** The median of a column that repeats one value is that value. *)
Lemma median_constant (n : nat) (v : Q) :
  (0 < n)%nat →
  ∃ m, median (replicate n (Some v)) = Some m ∧ (m == v)%Q.
Proof.
  intros Hn.
  destruct (median_is_median (replicate n v)) as (m & Hm & Hmed).
  { destruct n; [lia|done]. }
  assert (map Some (replicate n v) = replicate n (Some v)) as Hmap
    by (clear; induction n; simpl; congruence).
  rewrite Hmap in Hm. exists m. split; [done|].
  destruct Hmed as (s & Hperm%Permutation_replicate & _ & Hmid). subst s.
  rewrite length_replicate in Hmid.
  destruct (Nat.odd n).
  - apply lookup_replicate in Hmid as [-> _]. reflexivity.
  - destruct Hmid as (a & b & [-> _]%lookup_replicate
                      & [-> _]%lookup_replicate & ->).
    field.
Qed.

Lemma most_common_value_constant (n : nat) (v : option string) :
  (0 < n)%nat → most_common_value (replicate n v) = v.
Proof.
  intros Hn.
  assert (replicate n v ≠ []) as Hne by (destruct n; [lia|done]).
  pose proof (most_common_cases (replicate n v)) as Hcases.
  rewrite most_common_Ok in Hcases by done.
  destruct (most_common_value (replicate n v)) as [s|].
  - destruct Hcases as [Hs _]. by apply elem_of_replicate_inv in Hs.
  - destruct Hcases as [_ Hall]. destruct n; [lia|].
    by apply Forall_cons in Hall as [? _].
Qed.

(** X9.  Over a cache with one row per pincode, every summary row has the
    coordinates and the state of the cache row of its pincode, and the city
    of that cache row whenever the cache row has one: the median and the
    mode then range over copies of one value. *)
Theorem X9_summary_from_cache `{SortValues}
    (address_df : list AddressRow) (pincode_coords : list CacheRow)
    (selected_year : option Z) :
  NoDup (map pincode pincode_coords) →
  ∃ summaries,
    dashboard address_df pincode_coords selected_year = Ok summaries
    ∧ Forall (λ s,
        ∃ c lat lng slat slng,
          c ∈ pincode_coords ∧ pincode c = s_PIN_CODE s
          ∧ latitude c = Some lat ∧ longitude c = Some lng
          ∧ s_Latitude s = Some slat ∧ (slat == lat)%Q
          ∧ s_Longitude s = Some slng ∧ (slng == lng)%Q
          ∧ s_StateName s = state c
          ∧ (is_Some (city c) → s_ADDR_CITY s = city c)) summaries.
Proof.
  intros Hnd. unfold dashboard.
  set (df := filtered_df (load_data address_df pincode_coords) selected_year).
  eexists. split; [apply pincode_summary_spec|].
  rewrite sort_values_Permutation.
  apply Forall_forall. intros s (k & -> & Hk)%list_elem_of_fmap. simpl.
  pose proof (group_nonempty df k Hk) as Hne.
  destruct (group df k) as [|r0 g] eqn:Hg; [done|].
  assert (r0 ∈ group df k) as Hr0 by (rewrite Hg; left).
  apply list_elem_of_filter in Hr0 as [Hpin0 Hr0].
  destruct (view_row_joined _ _ _ _ Hr0)
    as (a0 & c & _ & Hc & _ & Hcp & _ & _ & _ & _ & _ & [lat Hlat] & [lng Hlng]).
  assert (Forall (λ r, Latitude r = latitude c ∧ Longitude r = longitude c
                       ∧ StateName r = state c
                       ∧ (is_Some (city c) → m_ADDR_CITY r = city c))
            (group df k)) as Hall.
  { apply Forall_forall. intros r [Hpin Hr]%list_elem_of_filter.
    destruct (view_row_joined _ _ _ _ Hr)
      as (a & c' & _ & Hc' & _ & Hcp' & _ & Hcity & Hstate & Hla & Hlo & _).
    assert (c' = c) as ->
      by (apply (NoDup_key_inj pincode pincode_coords); congruence).
    repeat split; try done. intros [x Hx]. by rewrite Hcity, Hx. }
  rewrite <- Hg.
  assert (0 < length (group df k))%nat as Hlen by (rewrite Hg; simpl; lia).
  rewrite (constant_column Latitude _ (latitude c)),
    (constant_column Longitude _ (longitude c)),
    (constant_column StateName _ (state c));
    [|eapply Forall_impl; [exact Hall|]; simpl; tauto..].
  rewrite Hlat, Hlng.
  destruct (median_constant (length (group df k)) lat Hlen) as (slat & -> & ?).
  destruct (median_constant (length (group df k)) lng Hlen) as (slng & -> & ?).
  exists c, lat, lng, slat, slng.
  rewrite most_common_value_constant by done.
  repeat split; try done; [congruence|].
  intros Hcity.
  rewrite (constant_column m_ADDR_CITY _ (city c)).
  - by apply most_common_value_constant.
  - eapply Forall_impl; [exact Hall|]. simpl. tauto.
Qed.

Lemma X9_witness :
  ∃ summaries,
    dashboard (H := stable_sort) sample_address sample_cache None = Ok summaries
    ∧ Forall (λ s,
        ∃ c lat lng slat slng,
          c ∈ sample_cache ∧ pincode c = s_PIN_CODE s
          ∧ latitude c = Some lat ∧ longitude c = Some lng
          ∧ s_Latitude s = Some slat ∧ (slat == lat)%Q
          ∧ s_Longitude s = Some slng ∧ (slng == lng)%Q
          ∧ s_StateName s = state c
          ∧ (is_Some (city c) → s_ADDR_CITY s = city c)) summaries.
Proof.
  apply (X9_summary_from_cache (H := stable_sort)
           sample_address sample_cache None).
  apply (bool_decide_unpack _). by vm_compute.
Defined.

(** ** Totals shown on clusters *)

Lemma cluster_sumCount_sum (ms : list MarkerOptions) :
  cluster_sumCount ms = sum_list_with customCount ms.
Proof.
  unfold cluster_sumCount.
  assert (∀ acc, foldl (λ sum m, if decide (customCount m = 0%nat) then sum
                                 else (sum + customCount m)%nat) acc ms
                 = (acc + sum_list_with customCount ms)%nat) as Hgen.
  { induction ms as [|m ms IH]; intros acc; simpl; [lia|].
    rewrite IH. destruct (decide _); lia. }
  by rewrite Hgen.
Qed.

Lemma cluster_sumPct_sum (ms : list MarkerOptions) :
  (cluster_sumPct ms == Qsum (map customPercentage ms))%Q.
Proof.
  unfold cluster_sumPct.
  assert (∀ acc, (foldl (λ sum m, if Qeq_bool (customPercentage m) 0 then sum
                                  else (sum + customPercentage m)%Q) acc ms
                  == acc + Qsum (map customPercentage ms))%Q) as Hgen.
  { induction ms as [|m ms IH]; intros acc; simpl; [ring|].
    rewrite IH. destruct (Qeq_bool (customPercentage m) 0) eqn:Hz.
    - apply Qeq_bool_eq in Hz. rewrite Hz. ring.
    - ring. }
  rewrite Hgen. ring.
Qed.

(** X10.  The number shown on a cluster is the sum of the customer counts
    of its markers, and in percentage mode the sum of their percentages:
    the test that skips a falsy option never changes a total.  A cluster
    of all markers of the map shows the number of records of the view,
    and 100 percent when the view is not empty. *)
Theorem X10_cluster_totals `{SortValues}
    (address_df : list AddressRow) (pincode_coords : list CacheRow)
    (selected_year : option Z) :
  let df := filtered_df (load_data address_df pincode_coords) selected_year in
  (∀ cluster : list MarkerOptions,
     cluster_sumCount cluster = sum_list_with customCount cluster
     ∧ (cluster_sumPct cluster == Qsum (map customPercentage cluster))%Q)
  ∧ ∃ summaries,
      dashboard address_df pincode_coords selected_year = Ok summaries
      ∧ cluster_sumCount (markers summaries) = length df
      ∧ (df ≠ [] → (cluster_sumPct (markers summaries) == 100)%Q).
Proof.
  intros df. split.
  { intros cluster. split;
      [apply cluster_sumCount_sum|apply cluster_sumPct_sum]. }
  unfold dashboard. fold df.
  eexists. split; [apply pincode_summary_spec|]. split.
  - rewrite cluster_sumCount_sum. unfold markers.
    rewrite sum_list_with_map. simpl.
    rewrite sort_values_Permutation, sum_list_with_map. simpl.
    apply sum_counts_group_keys.
  - intros Hne. rewrite cluster_sumPct_sum. unfold markers.
    rewrite map_map. simpl.
    rewrite (Qsum_Permutation _ (map percentage (map (summary_of df)
                                                   (group_keys df))))
      by (by rewrite sort_values_Permutation).
    by apply Qsum_percentage_summary.
Qed.

(* ================================================================== *)
(** * Further properties of fetch_coordinates.py *)

(** ** Outcomes of the adapter *)

(** X11.  The adapter asks the provider exactly once and always returns:
    it yields a row exactly when the provider answers with at least one
    candidate and the first candidate has a coordinate; otherwise it yields
    nothing and prints exactly one failure line, which is "No results"
    exactly when the provider answered with no candidate. *)
Theorem X11_adapter_outcomes (gmaps : Z → GeoResponse) (p : Z) :
  let r := get_coordinates_for_pincode gmaps p in
  geocoded r.2 = [p]
  ∧ (is_Some r.1 ↔
     ∃ first rest, gmaps p = GeoResult (first :: rest)
                   ∧ is_Some (location first))
  ∧ (is_Some r.1 → failures r.2 = [])
  ∧ (r.1 = None → failures r.2 = [p])
  ∧ (ENoResults p ∈ r.2 ↔ gmaps p = GeoResult []).
Proof.
  assert (∀ (e : Event) l, e ∈ l ↔ Exists (eq e) l) as Hin.
  { intros e l. rewrite Exists_exists. split.
    - intros He. by exists e.
    - by intros (? & ? & <-). }
  unfold get_coordinates_for_pincode.
  destruct (gmaps p) as [[|first rest]|] eqn:Hg; simpl.
  - split_and!; try done; try (by intros [? ?]).
    + split; [by intros [? ?]|by intros (? & ? & ? & _)].
    + split; [done|]. intros _. apply elem_of_cons. right. left.
  - destruct (location first) as [[lat lng]|] eqn:Hloc; simpl.
    + split_and!; try done.
      * split; [|eauto]. intros _. exists first, rest. by rewrite Hloc.
      * split; [|done]. rewrite Hin. intros Hex.
        by repeat (apply Exists_cons in Hex as [?|Hex]; [done|]);
        apply Exists_nil in Hex.
    + split_and!; try done; try (by intros [? ?]).
      * split; [by intros [? ?]|].
        intros (f & r & [= <- <-] & Hsome). rewrite Hloc in Hsome.
        by destruct Hsome.
      * split; [|done]. rewrite Hin. intros Hex.
        by repeat (apply Exists_cons in Hex as [?|Hex]; [done|]);
        apply Exists_nil in Hex.
  - split_and!; try done; try (by intros [? ?]).
    + split; [by intros [? ?]|by intros (? & ? & ? & _)].
    + split; [|done]. rewrite Hin. intros Hex.
      by repeat (apply Exists_cons in Hex as [?|Hex]; [done|]);
      apply Exists_nil in Hex.
Qed.

(** ** Which address component gives the city and the state *)

(** X12.  The city taken from the address components is the name of the
    last component typed locality, and the state is the name of the last
    component typed administrative_area_level_1 that is not also typed
    locality: a later component overwrites an earlier one, and a component
    carrying both types only sets the city. *)
Theorem X12_last_component_wins (cs : list Component) :
  (scan_components cs).1
  = long_name <$> last (filter (λ c, "locality" ∈ types c) cs)
  ∧ (scan_components cs).2
    = long_name <$> last (filter (λ c, ("locality" ∉ types c)
                                       ∧ "administrative_area_level_1" ∈ types c)
                            cs).
Proof.
  unfold scan_components. destruct (scan_from cs (None, None)) as [-> ->].
  split; by destruct (last _).
Qed.

(** ** The ways a run ends *)

Lemma outside_fetch_quiet trace :
  Forall outside_fetch trace →
  geocoded trace = [] ∧ sleeps trace = 0%nat ∧ failures trace = [].
Proof.
  unfold geocoded, sleeps, failures.
  induction 1 as [|e trace He _ (IH1 & IH2 & IH3)]; [done|].
  destruct e; try done; simpl; by rewrite ?IH1, ?IH3.
Qed.

Lemma reconcile_cases cache_file cached address_csv confirm gmaps :
  let todo := filter (λ p, p ∉ cached) (unique_pincodes address_csv) in
  let run := fetch_loop gmaps (length todo) 1 todo in
  let combined_df :=
    if decide (cached ≠ ∅) then default [] cache_file ++ run.1 else run.1 in
  ((reconcile cache_file cached address_csv confirm gmaps).1 = cache_file
   ∧ Forall outside_fetch
       (reconcile cache_file cached address_csv confirm gmaps).2)
  ∨ (confirm = "y" ∧ todo ≠ []
     ∧ ∃ pre,
         Forall outside_fetch pre
         ∧ reconcile cache_file cached address_csv confirm gmaps
           = (Some combined_df,
              pre ++ run.2
                ++ [ESaved (length run.1) (length combined_df);
                    ESummaryProcessed (length run.1);
                    ESummarySuccessful (length run.1)])).
Proof.
  intros todo run combined_df.
  destruct (decide (todo = [])) as [Hnil|Hne].
  - left. rewrite reconcile_nothing_to_fetch by done.
    split; [done|]. by repeat constructor.
  - destruct (decide (confirm = "y")) as [->|Hno].
    + right. split; [done|]. split; [done|].
      rewrite (reconcile_fetches _ _ _ _ todo eq_refl Hne).
      exists [EFoundUnique (length (unique_pincodes address_csv));
              ENeedToFetch (length todo); EWillMake (length todo)].
      split; [by repeat constructor|done].
    + left. rewrite (reconcile_cancelled _ _ _ _ _ todo eq_refl Hne Hno).
      split; [done|]. by repeat constructor.
Qed.

(** A run either leaves the cache file alone, without any provider call, or
    it has been confirmed and goes through the fetch loop and the write. *)
Lemma main_cases cache_file address_csv response confirm gmaps :
  let todo := pincodes_to_fetch cache_file response address_csv in
  let run := fetch_loop gmaps (length todo) 1 todo in
  let combined_df :=
    if decide (cached_pincodes_of cache_file response ≠ ∅)
    then default [] cache_file ++ run.1 else run.1 in
  ((main cache_file address_csv response confirm gmaps).1 = cache_file
   ∧ Forall outside_fetch (main cache_file address_csv response confirm gmaps).2)
  ∨ (confirm = "y" ∧ todo ≠ [] ∧ (cache_file = None ∨ response ≠ "U")
     ∧ ∃ pre,
         Forall outside_fetch pre
         ∧ main cache_file address_csv response confirm gmaps
           = (Some combined_df,
              pre ++ run.2
                ++ [ESaved (length run.1) (length combined_df);
                    ESummaryProcessed (length run.1);
                    ESummarySuccessful (length run.1)])).
Proof.
  intros todo run combined_df.
  destruct (decide (cache_file = None ∨ response ≠ "U")) as [Hmode|Hmode].
  - assert (∃ pre0,
      Forall outside_fetch pre0
      ∧ main cache_file address_csv response confirm gmaps
        = ((reconcile cache_file (cached_pincodes_of cache_file response)
              address_csv confirm gmaps).1,
           pre0 ++ (reconcile cache_file (cached_pincodes_of cache_file response)
                      address_csv confirm gmaps).2)) as (pre0 & Hpre0 & Hmain).
    { unfold main, cached_pincodes_of.
      destruct cache_file as [cached_df|].
      - destruct Hmode as [?|HU]; [done|]. rewrite decide_False by done.
        destruct (decide (response = "A")).
        + destruct (reconcile _ _ _ _ _) as [file ev].
          eexists [ECacheExists; EFoundCached _].
          split; [by repeat constructor|done].
        + destruct (reconcile _ _ _ _ _) as [file ev].
          exists [ECacheExists; EWillRefetch].
          split; [by repeat constructor|done].
      - exists []. split; [constructor|]. by destruct (reconcile _ _ _ _ _). }
    rewrite Hmain.
    destruct (reconcile_cases cache_file (cached_pincodes_of cache_file response)
                address_csv confirm gmaps)
      as [[Hfile Hquiet]|(Hy & Hne & pre & Hpre & Hrec)].
    + left. simpl. split; [done|]. by apply Forall_app.
    + right. split; [done|]. split; [done|]. split; [done|].
      exists (pre0 ++ pre). split; [by apply Forall_app|].
      rewrite Hrec. simpl. by rewrite <- app_assoc.
  - left. destruct cache_file as [cached_df|]; [|tauto].
    destruct (decide (response = "U")) as [->|?]; [|tauto].
    unfold main. rewrite decide_True by done. simpl.
    split; [done|]. by repeat constructor.
Qed.

(** X13.  Unless the operator answers y at the prompt, a run changes
    nothing and asks the provider nothing, whatever the mode; the same
    holds in the use-existing mode whatever the second answer. *)
Theorem X13_declined_run_changes_nothing (cache_file : option (list CacheRow))
    (address_csv : list AddressRow) (response confirm : string)
    (gmaps : Z → GeoResponse) :
  confirm ≠ "y" ∨ (is_Some cache_file ∧ response = "U") →
  (main cache_file address_csv response confirm gmaps).1 = cache_file
  ∧ geocoded (main cache_file address_csv response confirm gmaps).2 = []
  ∧ sleeps (main cache_file address_csv response confirm gmaps).2 = 0%nat.
Proof.
  intros Hquiet.
  destruct (main_cases cache_file address_csv response confirm gmaps)
    as [[Hfile Htrace]|(Hy & _ & Hmode & _)].
  - split; [done|]. by apply outside_fetch_quiet in Htrace as (? & ? & _).
  - destruct Hquiet as [?|[[c ->] ->]]; [done|]. by destruct Hmode.
Qed.

Lemma X13_witness :
  (main (Some sample_cache) sample_address "R" "n" sample_gmaps).1
  = Some sample_cache
  ∧ geocoded (main (Some sample_cache) sample_address "R" "n" sample_gmaps).2
    = []
  ∧ sleeps (main (Some sample_cache) sample_address "R" "n" sample_gmaps).2
    = 0%nat.
Proof.
  apply (X13_declined_run_changes_nothing (Some sample_cache) sample_address
           "R" "n" sample_gmaps).
  left. done.
Defined.

(** ** What an append run adds *)




(** ** What the provider is asked *)

Lemma geocoded_app t1 t2 : geocoded (t1 ++ t2) = geocoded t1 ++ geocoded t2.
Proof. unfold geocoded. apply omap_app. Qed.

Lemma sleeps_app t1 t2 : sleeps (t1 ++ t2) = (sleeps t1 + sleeps t2)%nat.
Proof. unfold sleeps. by rewrite omap_app, length_app. Qed.

Lemma main_geocoded cache_file address_csv response confirm gmaps :
  let trace := (main cache_file address_csv response confirm gmaps).2 in
  let todo := pincodes_to_fetch cache_file response address_csv in
  (geocoded trace = [] ∧ sleeps trace = 0%nat)
  ∨ (geocoded trace = todo
     ∧ sleeps trace = sleeps (fetch_loop gmaps (length todo) 1 todo).2).
Proof.
  intros trace todo. subst trace.
  destruct (main_cases cache_file address_csv response confirm gmaps)
    as [[_ Hquiet]|(_ & _ & _ & pre & Hpre & Hmain)].
  - left. by apply outside_fetch_quiet in Hquiet as (? & ? & _).
  - right. rewrite Hmain. cbn [snd].
    apply outside_fetch_quiet in Hpre as (Hg & Hs & _).
    destruct (fetch_loop_trace gmaps (length todo) 1 todo) as (Hgl & _).
    fold todo. rewrite !geocoded_app, !sleeps_app, Hg, Hs, Hgl.
    split; [by rewrite app_nil_r|]. simpl. unfold sleeps at 2. simpl. lia.
Qed.

(** Over whole pincodes the provider is asked about each pincode at most
    once, in ascending order, and only about pincodes of the cleaned address
    data; in append mode never about a pincode of the cache file. *)
Lemma provider_queries (cache_file : option (list CacheRow))
    (address_csv : list AddressRow) (response confirm : string)
    (gmaps : Z → GeoResponse) :
  let asked := geocoded (main cache_file address_csv response confirm gmaps).2 in
  StronglySorted Z.lt asked
  ∧ NoDup asked
  ∧ Forall (λ p,
      p ∈ omap CPA_PIN_CODE address_csv
      ∧ ∀ cached_df, cache_file = Some cached_df → response = "A" →
                     p ∉ map pincode cached_df) asked.
Proof.
  intros asked. subst asked.
  destruct (main_geocoded cache_file address_csv response confirm gmaps)
    as [[-> _]|[-> _]].
  - split; [constructor|]. split; [constructor|constructor].
  - assert (StronglySorted Z.lt (unique_pincodes address_csv)) as Hsorted.
    { apply StronglySorted_le_lt; [|apply NoDup_unique_pincodes].
      unfold unique_pincodes. apply StronglySorted_merge_sort; apply _. }
    unfold pincodes_to_fetch. split; [by apply StronglySorted_filter|].
    split; [apply NoDup_filter, NoDup_unique_pincodes|].
    apply Forall_forall. intros p [Hnot Hin]%list_elem_of_filter.
    split; [by apply elem_of_unique_pincodes|].
    intros cached_df -> -> Hc. apply Hnot.
    unfold cached_pincodes_of. rewrite decide_True by done.
    by apply elem_of_list_to_set.
Qed.

(** ** Pauses *)

Lemma tenth_step (i : nat) :
  (1 ≤ i)%nat →
  (i / 10 = (i - 1) / 10 + if decide (i mod 10 = 0) then 1 else 0)%nat.
Proof.
  intros Hi.
  pose proof (Nat.div_mod_eq i 10) as H1.
  pose proof (Nat.div_mod_eq (i - 1) 10) as H2.
  pose proof (Nat.mod_upper_bound i 10 ltac:(lia)) as H3.
  pose proof (Nat.mod_upper_bound (i - 1) 10 ltac:(lia)) as H4.
  destruct (decide (i mod 10 = 0)%nat); lia.
Qed.

Lemma fetch_loop_sleeps gmaps n i todo :
  (1 ≤ i)%nat →
  sleeps (fetch_loop gmaps n i todo).2
  = ((i + length todo - 1) / 10 - (i - 1) / 10)%nat.
Proof.
  revert i. induction todo as [|p todo IH]; intros i Hi.
  - change (sleeps (fetch_loop gmaps n i []).2) with 0%nat. cbn [length].
    replace (i + 0 - 1)%nat with (i - 1)%nat by lia. lia.
  - rewrite fetch_loop_cons. cbn zeta. cbn [snd].
    change (EFetching i n p :: ?l) with ([EFetching i n p] ++ l).
    rewrite !sleeps_app, IH by lia.
    assert (sleeps (get_coordinates_for_pincode gmaps p).2 = 0%nat) as ->.
    { unfold get_coordinates_for_pincode.
      destruct (gmaps p) as [[|first rest]|]; [done| |done].
      by destruct (location first) as [[? ?]|]. }
    assert (sleeps match (get_coordinates_for_pincode gmaps p).1 with
                   | Some x => [EFetched (latitude x) (longitude x)]
                   | None => []
                   end = 0%nat) as ->
      by (by destruct (get_coordinates_for_pincode gmaps p).1).
    assert (sleeps (if decide (i mod 10 = 0)%nat then [ESleep] else [])
            = if decide (i mod 10 = 0)%nat then 1%nat else 0%nat) as ->
      by (by destruct (decide _)).
    pose proof (tenth_step i Hi) as Hstep.
    assert ((i - 1) / 10 ≤ i / 10)%nat
      by (apply Nat.Div0.div_le_mono; lia).
    assert (i / 10 ≤ (S i + length todo - 1) / 10)%nat
      by (apply Nat.Div0.div_le_mono; lia).
    change (sleeps [EFetching i n p]) with 0%nat. cbn [length].
    replace (S i - 1)%nat with i by lia.
    replace (i + S (length todo) - 1)%nat
      with (S i + length todo - 1)%nat by lia.
    destruct (decide (i mod 10 = 0)%nat); lia.
Qed.

(** X17.  A run pauses once after every tenth request of its batch and
    nowhere else: the number of pauses is the number of provider calls
    divided by ten, rounded down. *)
Theorem X17_one_pause_per_ten_requests (cache_file : option (list CacheRow))
    (address_csv : list AddressRow) (response confirm : string)
    (gmaps : Z → GeoResponse) :
  let trace := (main cache_file address_csv response confirm gmaps).2 in
  sleeps trace = (length (geocoded trace) / 10)%nat.
Proof.
  intros trace. subst trace.
  destruct (main_geocoded cache_file address_csv response confirm gmaps)
    as [[-> ->]|[-> ->]]; [done|].
  rewrite fetch_loop_sleeps by lia.
  replace (1 - 1)%nat with 0%nat by lia.
  replace (1 + length (pincodes_to_fetch cache_file response address_csv) - 1)%nat
    with (length (pincodes_to_fetch cache_file response address_csv)) by lia.
  rewrite Nat.Div0.div_0_l. lia.
Qed.

(** ** What the next run has to fetch *)

Lemma filter_ext_elem {A} (P Q : A → Prop)
    `{∀ a, Decision (P a), ∀ a, Decision (Q a)} (l : list A) :
  (∀ a, a ∈ l → P a ↔ Q a) → filter P l = filter Q l.
Proof.
  induction l as [|a l IH]; intros Hext; [done|].
  rewrite !filter_cons, IH by (intros b Hb; apply Hext; by right).
  destruct (decide (P a)) as [HP|HP].
  - rewrite decide_True; [done|]. by apply (Hext a); [left|].
  - rewrite decide_False; [done|]. intros HQ. apply HP.
    by apply (Hext a); [left|].
Qed.

Lemma cached_pincodes_of_nonempty cache_file response :
  cached_pincodes_of cache_file response ≠ ∅ →
  ∃ cached_df, cache_file = Some cached_df
    ∧ cached_pincodes_of cache_file response
      = list_to_set (map pincode cached_df).
Proof.
  unfold cached_pincodes_of. destruct cache_file as [cached_df|]; [|done].
  destruct (decide (response = "A")); [|done]. eauto.
Qed.

Lemma cached_pincodes_of_append cached_df :
  cached_pincodes_of (Some cached_df) "A" = list_to_set (map pincode cached_df).
Proof. unfold cached_pincodes_of. by rewrite decide_True. Qed.

(** The cache file written by a confirmed run. *)
Lemma main_written cache_file address_csv response gmaps :
  let todo := pincodes_to_fetch cache_file response address_csv in
  cache_file = None ∨ response ≠ "U" → todo ≠ [] →
  (main cache_file address_csv response "y" gmaps).1
  = Some (if decide (cached_pincodes_of cache_file response ≠ ∅)
          then default [] cache_file ++ successful_rows gmaps todo
          else successful_rows gmaps todo).
Proof.
  intros todo Hmode Hne.
  destruct (main_reconcile cache_file address_csv response "y" gmaps Hmode)
    as (pre & -> & _).
  cbn [fst]. rewrite (reconcile_fetches _ _ _ _ todo eq_refl Hne).
  cbn [fst]. by rewrite fetch_loop_results.
Qed.

(** Over whole pincodes, after a confirmed run that wrote a cache file, a
    following append run has to fetch the pincodes that did not resolve. *)
Lemma next_append_retries_failures
    (cache_file : option (list CacheRow)) (address_csv : list AddressRow)
    (response : string) (gmaps : Z → GeoResponse) (after : list CacheRow) :
  cache_file = None ∨ response ≠ "U" →
  pincodes_to_fetch cache_file response address_csv ≠ [] →
  (main cache_file address_csv response "y" gmaps).1 = Some after →
  after ≠ [] →
  pincodes_to_fetch (Some after) "A" address_csv
  = filter (λ p, ¬ resolved gmaps p)
      (pincodes_to_fetch cache_file response address_csv).
Proof.
  intros Hmode Hne Hafter _.
  rewrite main_written in Hafter by done. injection Hafter as <-.
  set (todo := pincodes_to_fetch cache_file response address_csv) in *.
  set (cached := cached_pincodes_of cache_file response) in *.
  assert (∀ p, p ∈ map pincode
                     (if decide (cached ≠ ∅)
                      then default [] cache_file ++ successful_rows gmaps todo
                      else successful_rows gmaps todo)
               ↔ p ∈ cached ∨ (p ∈ todo ∧ resolved gmaps p)) as Hafter.
  { intros p. destruct (decide (cached ≠ ∅)) as [Hc|Hc].
    - destruct (cached_pincodes_of_nonempty _ _ Hc) as (cached_df & -> & Heq).
      subst cached. rewrite Heq. simpl.
      rewrite map_app, elem_of_app, successful_rows_pincodes.
      rewrite list_elem_of_filter, elem_of_list_to_set. tauto.
    - apply dec_stable in Hc. rewrite Hc.
      rewrite successful_rows_pincodes, list_elem_of_filter.
      split; [tauto|]. intros [Hin|?]; [|tauto].
      by apply not_elem_of_empty in Hin. }
  unfold pincodes_to_fetch at 1. rewrite cached_pincodes_of_append.
  transitivity (filter (λ p, ¬ resolved gmaps p)
                  (filter (λ p, p ∉ cached) (unique_pincodes address_csv)));
    [|done].
  rewrite list_filter_filter.
  apply filter_ext_elem. intros p Hp.
  rewrite elem_of_list_to_set, Hafter.
  subst todo. unfold pincodes_to_fetch. fold cached.
  rewrite list_elem_of_filter. tauto.
Qed.

(* ================================================================== *)
(** * Properties of merge_addresses.py *)

Lemma load_files_result csv_files dataframes :
  (load_files csv_files dataframes).1
  = (λ dfs, dataframes ++ dfs)
      <$> mapM (λ f, dropna_pincode <$> f.2) csv_files.
Proof.
  revert dataframes.
  induction csv_files as [|[csv_file [raw|]] rest IH]; intros dataframes.
  - simpl. by rewrite app_nil_r.
  - simpl. specialize (IH (dataframes ++ [dropna_pincode raw])).
    destruct (load_files rest _) as [r ev]. simpl in *. rewrite IH.
    destruct (mapM _ rest); simpl; [|done]. by rewrite <- app_assoc.
  - done.
Qed.

Lemma load_files_dropped csv_files dataframes :
  Forall (λ f, is_Some f.2) csv_files →
  sum_list (dropped_counts (load_files csv_files dataframes).2)
  = (sum_list_with (λ f, length (default [] f.2)) csv_files
     - sum_list_with (λ f, length (dropna_pincode (default [] f.2))) csv_files)%nat.
Proof.
  intros Hall. revert dataframes.
  induction Hall as [|[csv_file [raw|]] rest Hf _ IH]; intros dataframes;
    [done| |by destruct Hf].
  simpl. specialize (IH (dataframes ++ [dropna_pincode raw])).
  destruct (load_files rest _) as [r ev]. simpl in *.
  unfold dropped_counts in *. rewrite omap_app. simpl.
  change (list_omap _ _ ?f ev) with (omap f ev).
  pose proof (length_filter (λ a, is_Some (CPA_PIN_CODE a)) raw) as Hle.
  assert (sum_list_with (λ f, length (dropna_pincode (default [] f.2))) rest
          ≤ sum_list_with (λ f, length (default [] f.2)) rest)%nat as Hrest.
  { clear. induction rest as [|f rest IH]; simpl; [lia|].
    apply Nat.add_le_mono; [apply length_filter|exact IH]. }
  unfold dropna_pincode in *.
  destruct (decide _); simpl; rewrite ?sum_list_with_app; simpl; lia.
Qed.

(** X19.  [merge_address_files] succeeds exactly when both input files
    exist; when one is missing it returns False and writes no output file,
    even if the other file was loaded before. *)
Theorem X19_merge_needs_both_files
    (address_details tn_address : option (list AddressRow)) :
  let r := merge_address_files address_details tn_address in
  (r.1.1 = true ↔ is_Some address_details ∧ is_Some tn_address)
  ∧ (is_Some r.1.2 ↔ r.1.1 = true)
  ∧ (tn_address = None → ∀ raw, address_details = Some raw →
       r.1.2 = None ∧ MLoaded (length (dropna_pincode raw)) ∈ r.2
       ∧ MNotFound "TNAddress.csv" ∈ r.2).
Proof.
  unfold merge_address_files.
  destruct address_details as [ra|], tn_address as [rb|]; simpl.
  - split; [|split; [|done]].
    + split; [eauto|done].
    + split; [done|eauto].
  - split; [|split].
    + split; [done|]. by intros [_ [? ?]].
    + split; [by intros [? ?]|done].
    + intros _ raw [= <-]. split; [done|].
      split; [by right; left|].
      apply elem_of_cons. right. apply elem_of_cons. right.
      apply elem_of_app. right. right. left.
  - split; [|split; [|done]].
    + split; [done|]. by intros [[? ?] _].
    + split; [by intros [? ?]|done].
  - split; [|split].
    + split; [done|]. by intros [[? ?] _].
    + split; [by intros [? ?]|done].
    + by intros _ raw.
Qed.

(** X20.  When both files exist, the output file holds the rows of the
    first file followed by the rows of the second, in their order, without
    the rows whose pincode is missing or not a number; every row of the
    output has a pincode, the reported total is the number of rows written,
    and the numbers of dropped rows reported add up to the difference
    between the rows read and the rows written. *)
Theorem X20_merge_output (address_details tn_address : list AddressRow) :
  ∃ trace,
    merge_address_files (Some address_details) (Some tn_address)
    = (true, Some (dropna_pincode (address_details ++ tn_address)), trace)
    ∧ Forall (λ a, is_Some (CPA_PIN_CODE a))
        (dropna_pincode (address_details ++ tn_address))
    ∧ last trace
      = Some (MCreated (length (dropna_pincode (address_details ++ tn_address)))
                (nunique (dropna_pincode (address_details ++ tn_address))))
    ∧ (length (dropna_pincode (address_details ++ tn_address))
       + sum_list (dropped_counts trace)
       = length address_details + length tn_address)%nat.
Proof.
  unfold merge_address_files.
  pose proof (load_files_result
                [("Address Details.csv", Some address_details);
                 ("TNAddress.csv", Some tn_address)] []) as Hres.
  pose proof (load_files_dropped
                [("Address Details.csv", Some address_details);
                 ("TNAddress.csv", Some tn_address)] []) as Hdrop.
  destruct (load_files _ []) as [r ev]. simpl in Hres, Hdrop.
  subst r. simpl.
  assert (dropna_pincode address_details ++ dropna_pincode tn_address ++ []
          = dropna_pincode (address_details ++ tn_address)) as ->
    by (unfold dropna_pincode; by rewrite app_nil_r, filter_app).
  eexists. split; [done|]. split; [|split].
  - apply Forall_forall. by intros a [? _]%list_elem_of_filter.
  - by rewrite last_app.
  - unfold dropped_counts in *. rewrite omap_app. simpl. rewrite app_nil_r.
    rewrite Hdrop by (by repeat constructor; eexists).
    unfold dropna_pincode. rewrite filter_app, !length_app.
    pose proof (length_filter (λ a, is_Some (CPA_PIN_CODE a)) address_details).
    pose proof (length_filter (λ a, is_Some (CPA_PIN_CODE a)) tn_address).
    lia.
Qed.

(* ================================================================== *)
(** * Properties of create_heatmap.py *)

Lemma heat_merge_row_length pincode_df pin a :
  length (filter (λ r, is_Some (h_Latitude r) ∧ is_Some (h_Longitude r))
            (heat_merge_row (clean_pincode_df pincode_df) pin a))
  = length (filter (λ o, Pincode o = Some pin) (clean_pincode_df pincode_df)).
Proof.
  unfold heat_merge_row.
  destruct (filter (λ o, Pincode o = Some pin) (clean_pincode_df pincode_df))
    as [|o os] eqn:Hf.
  - rewrite filter_cons, decide_False; [done|]. simpl. by intros [[? ?] _].
  - rewrite filter_all, length_map; [done|].
    apply Forall_forall. intros r (o' & -> & Ho')%list_elem_of_fmap. simpl.
    rewrite <- Hf in Ho'. apply list_elem_of_filter in Ho' as [_ Ho'].
    unfold clean_pincode_df in Ho'.
    apply list_elem_of_filter in Ho' as [(_ & ? & ?) _]. done.
Qed.

(** X21.  In the heatmap script an address record enters the mapped
    table once for every row of the post office table that carries its
    pincode together with both coordinates: it is left out when there is no
    such row, and counted several times when there are several. *)
Theorem X21_heatmap_join_multiplicity (address_df : list AddressRow)
    (pincode_df : list OfficeRow) :
  length (heat_merged_df address_df pincode_df)
  = sum_list_with
      (λ a, match CPA_PIN_CODE a with
            | Some pin =>
                length (filter (λ o, Pincode o = Some pin
                                     ∧ is_Some (o_Latitude o)
                                     ∧ is_Some (o_Longitude o)) pincode_df)
            | None => 0%nat
            end) address_df.
Proof.
  unfold heat_merged_df.
  induction address_df as [|a address_df IH]; [done|].
  simpl. rewrite filter_app, length_app, IH. f_equal.
  destruct (CPA_PIN_CODE a) as [pin|]; [|done].
  rewrite heat_merge_row_length. unfold clean_pincode_df.
  rewrite list_filter_filter. f_equal. apply filter_ext_elem.
  intros o _. split.
  - intros [Hpin (_ & ? & ?)]. done.
  - intros (Hpin & ? & ?). rewrite Hpin. split; [done|]. eauto.
Qed.

Lemma sum_occurrences `{EqDecision K} (keys l : list K) :
  NoDup keys → Forall (λ x, x ∈ keys) l →
  sum_list_with (λ k, length (filter (λ p, p = k) l)) keys = length l.
Proof.
  intros Hnd. induction 1 as [|a l Ha _ IH];
    [clear Hnd; induction keys as [|? ? IHk]; simpl in *; [done|exact IHk]|].
  change (length (a :: l)) with (S (length l)). rewrite <- IH. clear IH.
  induction Hnd as [|k keys Hk Hnd IHk]; [by apply elem_of_nil in Ha|].
  cbn [sum_list_with]. rewrite filter_cons.
  destruct (decide (a = k)) as [->|Hne].
  - assert (sum_list_with (λ k0, length (filter (λ p, p = k0) (k :: l))) keys
            = sum_list_with (λ k0, length (filter (λ p, p = k0) l)) keys) as ->.
    { clear IHk Ha. induction keys as [|k' keys IH']; [done|].
      cbn [sum_list_with]. rewrite filter_cons.
      rewrite decide_False by (intros ->; apply Hk; left).
      rewrite IH'; [done|..].
      - intros ?. apply Hk. by right.
      - by inversion Hnd. }
    simpl. lia.
  - apply elem_of_cons in Ha as [?|Ha]; [done|].
    rewrite IHk by done. lia.
Qed.

Lemma Qred_value_inj (a b : Q) : (Qred a == Qred b)%Q → Qred a = Qred b.
Proof. intros Heq. apply Qred_complete. by rewrite !Qred_correct in Heq. Qed.

(** X22.  The table of locations partitions the mapped addresses: its
    counts add up to the number of mapped addresses, every count is at
    least one, every mapped address lies at the coordinates of exactly one
    row, and no two rows have the same coordinates. *)
Theorem X22_location_counts (address_df : list AddressRow)
    (pincode_df : list OfficeRow) :
  let merged_df := heat_merged_df address_df pincode_df in
  let counts := location_counts merged_df in
  sum_list_with snd counts = length merged_df
  ∧ Forall (λ kc, (0 < kc.2)%nat) counts
  ∧ NoDup (map fst counts)
  ∧ (∀ k1 k2, k1 ∈ map fst counts → k2 ∈ map fst counts →
       (k1.1 == k2.1)%Q → (k1.2 == k2.2)%Q → k1 = k2)
  ∧ Forall (λ r, ∃ lat lng k,
      h_Latitude r = Some lat ∧ h_Longitude r = Some lng
      ∧ k ∈ map fst counts ∧ (lat == k.1)%Q ∧ (lng == k.2)%Q) merged_df.
Proof.
  intros merged_df counts. subst counts. unfold location_counts.
  set (points := omap point merged_df).
  set (keys := merge_sort point_le (unique points)).
  assert (∀ k, k ∈ keys ↔ k ∈ points) as Hkeys.
  { intros k. subst keys. by rewrite merge_sort_Permutation, elem_of_unique. }
  assert (NoDup keys) as Hnd
    by (subst keys; rewrite merge_sort_Permutation; apply NoDup_unique).
  assert (Forall (λ r, is_Some (h_Latitude r) ∧ is_Some (h_Longitude r))
            merged_df) as Hcoords.
  { apply Forall_forall. intros r Hr. subst merged_df.
    unfold heat_merged_df in Hr. by apply list_elem_of_filter in Hr as [? _]. }
  assert (map fst (map (λ k, (k, length (filter (λ p, p = k) points))) keys)
          = keys) as Hfst by (rewrite map_map; apply map_id).
  rewrite Hfst. split; [|split; [|split; [|split]]].
  - rewrite sum_list_with_map. simpl. rewrite sum_occurrences.
    + subst points. apply length_omap_present, all_present.
      eapply Forall_impl; [exact Hcoords|].
      intros r [[lat Hlat] [lng Hlng]]. unfold point. rewrite Hlat, Hlng. eauto.
    + done.
    + apply Forall_forall. intros p Hp. by apply Hkeys.
  - apply Forall_forall. intros kc (k & -> & Hk)%list_elem_of_fmap. simpl.
    apply Hkeys in Hk.
    assert (k ∈ filter (λ p, p = k) points) as Hin
      by (by apply list_elem_of_filter).
    destruct (filter (λ p, p = k) points); [by apply elem_of_nil in Hin|].
    simpl. lia.
  - done.
  - intros [a1 b1] [a2 b2] H1%Hkeys H2%Hkeys. simpl.
    subst points. apply list_elem_of_omap in H1 as (r1 & _ & H1).
    apply list_elem_of_omap in H2 as (r2 & _ & H2).
    unfold point in H1, H2.
    destruct (h_Latitude r1), (h_Longitude r1); try done.
    destruct (h_Latitude r2), (h_Longitude r2); try done.
    injection H1 as <- <-. injection H2 as <- <-.
    intros Ha%Qred_value_inj Hb%Qred_value_inj. by rewrite Ha, Hb.
  - apply Forall_forall. intros r Hr.
    destruct (proj1 (Forall_forall _ _) Hcoords r Hr) as [[lat Hlat] [lng Hlng]].
    exists lat, lng, (Qred lat, Qred lng). split; [done|]. split; [done|].
    split; [|split; simpl; by rewrite Qred_correct].
    apply Hkeys. subst points. apply list_elem_of_omap.
    exists r. split; [done|]. unfold point. by rewrite Hlat, Hlng.
Qed.

(* ================================================================== *)
(** * The reconciler over fractional cells *)

Lemma Qred_inject_Z (z : Z) : Qred (inject_Z z) = inject_Z z.
Proof.
  unfold Qred, inject_Z.
  pose proof (Z.ggcd_gcd z 1) as Hg.
  pose proof (Z.ggcd_correct_divisors z 1) as Hd.
  destruct (Z.ggcd z 1) as [g [a b]]. simpl in Hg, Hd.
  rewrite Z.gcd_1_r in Hg. subst g. destruct Hd as [Ha Hb].
  rewrite Z.mul_1_l in Ha, Hb. by subst.
Qed.

Lemma int_inject_Z (z : Z) : Cells.int (inject_Z z) = z.
Proof. unfold Cells.int. simpl. apply Z.quot_1_r. Qed.

Lemma whole_inject_Z (z : Z) : Cells.whole (inject_Z z).
Proof. unfold Cells.whole. by rewrite int_inject_Z. Qed.

Lemma whole_Qred (q : Q) : Cells.whole q → Qred q = inject_Z (Cells.int q).
Proof.
  intros Hq. rewrite <- (Qred_inject_Z (Cells.int q)).
  symmetry. by apply Qred_complete.
Qed.

Global Instance inject_Z_inj : Inj (=) (=) inject_Z.
Proof. by intros x y [= ->]. Qed.

Lemma unique_fmap `{EqDecision A, EqDecision B} (f : A → B)
    `{!Inj (=) (=) f} (l : list A) :
  unique (f <$> l) = f <$> unique l.
Proof.
  induction l as [|a l IH]; [done|].
  cbn [unique fmap list_fmap]. f_equal. rewrite IH. clear IH.
  induction (unique l) as [|b u IHu]; [done|].
  cbn [fmap list_fmap]. rewrite !filter_cons.
  destruct (decide (b ≠ a)) as [Hne|Heq].
  - rewrite decide_True by (intros ?%(inj f); done).
    cbn [fmap list_fmap]. by f_equal.
  - rewrite decide_False; [done|]. intros Hn. apply Heq. by intros ->.
Qed.

Lemma merge_sort_inject_Z (l : list Z) :
  merge_sort Qle (inject_Z <$> l) = inject_Z <$> merge_sort Z.le l.
Proof.
  apply (Sorted_unique_strong Qle).
  - intros x1 x2 Hx1 (z2 & -> & _)%list_elem_of_fmap H12 H21.
    rewrite merge_sort_Permutation in Hx1.
    apply list_elem_of_fmap in Hx1 as (z1 & -> & _).
    f_equal. rewrite <- Zle_Qle in H12, H21. lia.
  - apply Sorted_merge_sort; apply _.
  - apply (Sorted_fmap _ Z.le Qle).
    + intros x y Hxy. by rewrite <- Zle_Qle.
    + apply Sorted_merge_sort; apply _.
  - by rewrite !merge_sort_Permutation.
Qed.

Lemma whole_column_Qred (column : list (option Q)) :
  Cells.whole_column column →
  Qred <$> omap id column = inject_Z <$> (Cells.int <$> omap id column).
Proof.
  unfold Cells.whole_column.
  induction 1 as [|q l Hq _ IH]; [done|].
  cbn [fmap list_fmap]. by rewrite (whole_Qred q Hq), IH.
Qed.

Lemma cells_unique_pincodes column address_csv :
  Cells.whole_column column →
  omap CPA_PIN_CODE address_csv = Cells.int <$> omap id column →
  Cells.unique_pincodes column = inject_Z <$> unique_pincodes address_csv.
Proof.
  intros Hwhole Hcsv. unfold Cells.unique_pincodes, unique_pincodes.
  rewrite (whole_column_Qred _ Hwhole), <- Hcsv.
  rewrite (unique_fmap inject_Z).
  by rewrite merge_sort_inject_Z.
Qed.

Lemma cells_not_cached (cached_pincodes : gset Z) (l : list Z) :
  filter (λ p, ¬ Cells.cached cached_pincodes p) (inject_Z <$> l)
  = inject_Z <$> filter (λ p, p ∉ cached_pincodes) l.
Proof.
  induction l as [|z l IH]; [done|].
  cbn [fmap list_fmap]. rewrite !filter_cons, IH.
  destruct (decide (z ∉ cached_pincodes)) as [Hz|Hz].
  - rewrite decide_True; [done|].
    intros [_ Hin]. by rewrite int_inject_Z in Hin.
  - rewrite decide_False; [done|]. intros Hnot. apply Hz. intros Hin.
    apply Hnot. split; [apply whole_inject_Z|by rewrite int_inject_Z].
Qed.

Lemma int_inject_Z_fmap (l : list Z) : Cells.int <$> (inject_Z <$> l) = l.
Proof.
  induction l as [|z l IH]; [done|].
  cbn [fmap list_fmap]. by rewrite int_inject_Z, IH.
Qed.

Lemma cells_pincodes_to_fetch cache_file response column address_csv :
  Cells.whole_column column →
  omap CPA_PIN_CODE address_csv = Cells.int <$> omap id column →
  Cells.pincodes_to_fetch cache_file response column
  = inject_Z <$> pincodes_to_fetch cache_file response address_csv.
Proof.
  intros Hwhole Hcsv. unfold Cells.pincodes_to_fetch, pincodes_to_fetch.
  by rewrite (cells_unique_pincodes _ _ Hwhole Hcsv), cells_not_cached.
Qed.

Lemma reconcile_cells cache_file cached_pincodes column address_csv
    confirm gmaps :
  Cells.whole_column column →
  omap CPA_PIN_CODE address_csv = Cells.int <$> omap id column →
  Cells.reconcile cache_file cached_pincodes column confirm gmaps
  = reconcile cache_file cached_pincodes address_csv confirm gmaps.
Proof.
  intros Hwhole Hcsv. unfold Cells.reconcile, reconcile.
  rewrite (cells_unique_pincodes _ _ Hwhole Hcsv), cells_not_cached.
  by rewrite !length_fmap, int_inject_Z_fmap.
Qed.

(** On a column of whole numbers the reconciler over the floats is the
    reconciler over the integers: [main] is [Cells.main] restricted to
    the address tables whose pincode cells are whole numbers. *)
Lemma main_cells cache_file column address_csv response confirm gmaps :
  Cells.whole_column column →
  omap CPA_PIN_CODE address_csv = Cells.int <$> omap id column →
  Cells.main cache_file column response confirm gmaps
  = main cache_file address_csv response confirm gmaps.
Proof.
  intros Hwhole Hcsv. unfold Cells.main, main.
  destruct cache_file as [cached_df|];
    repeat case_decide;
    by rewrite ?(reconcile_cells _ _ _ address_csv _ _ Hwhole Hcsv).
Qed.

Lemma whole_column_of_table (address_csv : list AddressRow) :
  Cells.whole_column (Cells.column address_csv)
  ∧ omap CPA_PIN_CODE address_csv
    = Cells.int <$> omap id (Cells.column address_csv).
Proof.
  unfold Cells.whole_column, Cells.column.
  induction address_csv as [|a l [IH1 IH2]]; [by split; [constructor|]|].
  cbn [map omap list_omap]. destruct (CPA_PIN_CODE a) as [z|]; simpl.
  - split; [constructor; [apply whole_inject_Z|done]|].
    cbn [fmap list_fmap]. rewrite int_inject_Z. f_equal. exact IH2.
  - by split.
Qed.

(** Every address table with whole pincodes is run by [main] as its column
    is run by [Cells.main]. *)
Lemma main_column cache_file address_csv response confirm gmaps :
  main cache_file address_csv response confirm gmaps
  = Cells.main cache_file (Cells.column address_csv) response confirm gmaps.
Proof.
  destruct (whole_column_of_table address_csv) as [Hwhole Hcsv].
  symmetry. by apply main_cells.
Qed.

Lemma table_of_column (column : list (option Q)) :
  ∃ address_csv,
    omap CPA_PIN_CODE address_csv = Cells.int <$> omap id column.
Proof.
  exists (map (λ c, {| CPA_PIN_CODE := Cells.int <$> c;
                       CPA_ADDR_CITY := None; Year := None |}) column).
  induction column as [|[q|] l IH]; [done| |done].
  cbn [map omap list_omap]. simpl. cbn [fmap list_fmap]. f_equal. exact IH.
Qed.

(** With fractional cells the reconciler does what [main] cannot show: for
    the cells 5 and 5.5 and no cache file it asks the provider about
    pincode 5 twice and stores two rows with pincode 5, and a following
    append run still has 5.5 to fetch. *)
Lemma fractional_cells_run :
  let run := Cells.main None fractional_column "" "y" gmaps_five in
  geocoded run.2 = [5; 5]
  ∧ (map pincode <$> run.1) = Some [5; 5]
  ∧ Cells.pincodes_to_fetch run.1 "A" fractional_column = [(11 # 2)%Q].
Proof. split; [|split]; by vm_compute. Qed.

Lemma cells_not_resolved gmaps (l : list Z) :
  filter (λ p, ¬ resolved gmaps (Cells.int p)) (inject_Z <$> l)
  = inject_Z <$> filter (λ p, ¬ resolved gmaps p) l.
Proof.
  induction l as [|z l IH]; [done|].
  cbn [fmap list_fmap]. rewrite !filter_cons, IH, int_inject_Z.
  by destruct (decide (¬ resolved gmaps z)).
Qed.

(** X15.  If every pincode cell of the address file is a whole number and
    the cache file holds at most one row per pincode before a run (or does
    not exist), the cache file holds at most one row per pincode after the
    run, in every mode and whatever the provider answers.  (With
    fractional cells it does not: see [fractional_cells_run].) *)
Theorem X15_one_row_per_pincode (cache_file : option (list CacheRow))
    (column : list (option Q)) (response confirm : string)
    (gmaps : Z → GeoResponse) (after : list CacheRow) :
  Cells.whole_column column →
  (∀ cached_df, cache_file = Some cached_df → NoDup (map pincode cached_df)) →
  (Cells.main cache_file column response confirm gmaps).1 = Some after →
  NoDup (map pincode after).
Proof.
  intros Hwhole Hinv Hafter.
  destruct (table_of_column column) as [address_csv Hcsv].
  rewrite (main_cells _ _ address_csv) in Hafter by done.
  by apply (main_one_row_per_pincode cache_file address_csv response confirm
              gmaps).
Qed.

Lemma X15_witness :
  NoDup (map pincode (take 1 sample_cache
                        ++ successful_rows sample_gmaps [560001; 600001])).
Proof.
  apply (X15_one_row_per_pincode (Some (take 1 sample_cache))
           whole_column_sample "A" "y" sample_gmaps).
  - apply (bool_decide_unpack _). by vm_compute.
  - intros cached_df [= <-]. apply (bool_decide_unpack _). by vm_compute.
  - by vm_compute.
Defined.

(** X16.  If every pincode cell of the address file is a whole number, the
    provider is asked about each pincode at most once in a run, in
    ascending order, and only about pincodes that occur in the address
    file; in append mode it is never asked about a pincode that is already
    in the cache file.  (With fractional cells it is asked twice about one
    pincode: see [fractional_cells_run].) *)
Theorem X16_provider_queries (cache_file : option (list CacheRow))
    (column : list (option Q)) (response confirm : string)
    (gmaps : Z → GeoResponse) :
  Cells.whole_column column →
  let asked :=
    geocoded (Cells.main cache_file column response confirm gmaps).2 in
  StronglySorted Z.lt asked
  ∧ NoDup asked
  ∧ Forall (λ p,
      (∃ q, Some q ∈ column ∧ (q == inject_Z p)%Q)
      ∧ ∀ cached_df, cache_file = Some cached_df → response = "A" →
                     p ∉ map pincode cached_df) asked.
Proof.
  intros Hwhole asked. subst asked.
  destruct (table_of_column column) as [address_csv Hcsv].
  rewrite (main_cells _ _ address_csv) by done.
  destruct (provider_queries cache_file address_csv response confirm gmaps)
    as (Hsorted & Hnd & Hall).
  split; [done|]. split; [done|].
  eapply Forall_impl; [exact Hall|]. intros p [Hp Hcached].
  split; [|done].
  rewrite Hcsv in Hp. apply list_elem_of_fmap in Hp as (q & -> & Hq).
  exists q. split.
  - apply list_elem_of_omap in Hq as (c & Hc & <-). by destruct c.
  - unfold Cells.whole_column in Hwhole. rewrite Forall_forall in Hwhole.
    symmetry. by apply Hwhole.
Qed.

Lemma X16_witness :
  let asked :=
    geocoded (Cells.main (Some (take 1 sample_cache)) whole_column_sample
                "A" "y" sample_gmaps).2 in
  asked = [560001; 600001]
  ∧ StronglySorted Z.lt asked
  ∧ NoDup asked.
Proof.
  destruct (X16_provider_queries (Some (take 1 sample_cache))
              whole_column_sample "A" "y" sample_gmaps)
    as (Hsorted & Hnd & _).
  - apply (bool_decide_unpack _). by vm_compute.
  - split; [by vm_compute|]. by split.
Defined.

(** X18.  If every pincode cell of the address file is a whole number,
    then after a confirmed run that wrote a cache file with at least one
    row, the pincodes a following append run has to fetch are exactly the
    pincodes whose resolution failed in this run, in the same order: a
    failed pincode is retried, a resolved one is not asked again.  (A file
    written without any row has no header line, and [pd.read_csv] does not
    read it back; hence the condition on [after].  With fractional cells a
    resolved cell is fetched again: see [fractional_cells_run].) *)
Theorem X18_next_append_retries_failures
    (cache_file : option (list CacheRow)) (column : list (option Q))
    (response : string) (gmaps : Z → GeoResponse) (after : list CacheRow) :
  Cells.whole_column column →
  cache_file = None ∨ response ≠ "U" →
  Cells.pincodes_to_fetch cache_file response column ≠ [] →
  (Cells.main cache_file column response "y" gmaps).1 = Some after →
  after ≠ [] →
  Cells.pincodes_to_fetch (Some after) "A" column
  = filter (λ p, ¬ resolved gmaps (Cells.int p))
      (Cells.pincodes_to_fetch cache_file response column).
Proof.
  intros Hwhole Hmode Hne Hafter Hrows.
  destruct (table_of_column column) as [address_csv Hcsv].
  rewrite (main_cells _ _ address_csv) in Hafter by done.
  rewrite !(cells_pincodes_to_fetch _ _ _ address_csv) in * by done.
  rewrite cells_not_resolved. f_equal.
  apply next_append_retries_failures; [done| |done..].
  intros Hnil. apply Hne. by rewrite Hnil.
Qed.

Lemma X18_witness :
  Cells.pincodes_to_fetch
    (Some (successful_rows sample_gmaps [110001; 560001; 600001]))
    "A" whole_column_sample
  = filter (λ p, ¬ resolved sample_gmaps (Cells.int p))
      (Cells.pincodes_to_fetch None "" whole_column_sample).
Proof.
  apply (X18_next_append_retries_failures None whole_column_sample ""
           sample_gmaps
           (successful_rows sample_gmaps [110001; 560001; 600001])).
  - apply (bool_decide_unpack _). by vm_compute.
  - by left.
  - by vm_compute.
  - by vm_compute.
  - by vm_compute.
Defined.
